(** * Radionuclide speciation in OpenDrift: a shallow embedding

    This development embeds [opendrift/models/radionuclides.py]
    (class [RadionuclideDrift]) and proves properties of its speciation
    engine: the transfer-rate matrix builder, the per-particle rate
    projection, the stochastic transition step, the transition effect
    handlers, bottom deposition and the [update] step.

    Conventions of the embedding.
    - Floating-point numbers are idealised as real numbers ([R]); the
      timestep [time_step.seconds] is a Python int ([Z]).
    - A one-dimensional numpy array is a [list]; a two-dimensional one is a
      list of rows.
    - Methods run in a state-and-exception monad over the simulation object
      ([Sim]).  A raised Python exception is identified by its class name and,
      as in Python, leaves behind every mutation made before it was raised.
    - The arrays that the source reaches through more than one name live in
      explicit stores: the 2-D rate arrays ([transfer_rates],
      [elements.transfer_rates1D]) and the 1-D [elements.lon] /
      [elements.lat], which [update] keeps references to across a call into
      the host framework.
    - Random draws are inputs: each [np.random] call site reads a prefix of
      its own stream. *)

From Stdlib Require Import Reals Lra Lia String ZArith Bool Arith List.
Import ListNotations.

Open Scope string_scope.
Open Scope R_scope.

(** ** Numpy-style array operations *)

Module Np.

Definition Rltb (x y : R) : bool := if Rlt_dec x y then true else false.
Definition Rleb (x y : R) : bool := if Rle_dec x y then true else false.
Definition Rgtb (x y : R) : bool := Rltb y x.

(** [np.sum(a)] of a 1-D array. *)
Fixpoint sum (a : list R) : R :=
  match a with
  | [] => 0
  | x :: t => x + sum t
  end.

(** [np.cumsum(a)]. *)
Fixpoint cumsum_from (acc : R) (a : list R) : list R :=
  match a with
  | [] => []
  | x :: t => (acc + x) :: cumsum_from (acc + x) t
  end.

Definition cumsum (a : list R) : list R := cumsum_from 0 a.

(** [np.searchsorted(a, v)] with the default [side='left'] on a sorted
    array: the first index [i] with [v <= a[i]], or [len(a)]. *)
Fixpoint searchsorted (a : list R) (v : R) : nat :=
  match a with
  | [] => 0%nat
  | x :: t => if Rlt_dec x v then S (searchsorted t v) else 0%nat
  end.

(** Elementwise binary operation on two arrays of one shape. *)
Fixpoint map2 {A B C : Type} (f : A -> B -> C) (a : list A) (b : list B)
  : list C :=
  match a, b with
  | x :: a', y :: b' => f x y :: map2 f a' b'
  | _, _ => []
  end.

(** Python's [sum(mask)] for a boolean array. *)
Fixpoint count_true (mask : list bool) : nat :=
  match mask with
  | [] => 0%nat
  | b :: t => (if b then 1 else 0) + count_true t
  end.

(** [a[mask]]: the entries of [a] where [mask] holds, in order. *)
Fixpoint select {A : Type} (mask : list bool) (a : list A) : list A :=
  match mask, a with
  | b :: m, x :: t => if b then x :: select m t else select m t
  | _, _ => []
  end.

(** [a[mask] = vals], with [vals] an array holding one value per selected
    entry, consumed in order. *)
Fixpoint put {A : Type} (mask : list bool) (vals : list A) (a : list A)
  : list A :=
  match mask, a with
  | true :: m, x :: t =>
      match vals with
      | v :: vs => v :: put m vs t
      | [] => x :: put m [] t
      end
  | false :: m, x :: t => x :: put m vals t
  | _, _ => a
  end.

(** [a[mask] = v] with a scalar [v]. *)
Fixpoint fill {A : Type} (mask : list bool) (v : A) (a : list A) : list A :=
  match mask, a with
  | b :: m, x :: t => (if b then v else x) :: fill m v t
  | _, _ => a
  end.

(** [a[i] = v] for an index in range (no effect otherwise). *)
Fixpoint upd {A : Type} (i : nat) (v : A) (a : list A) : list A :=
  match a, i with
  | [], _ => []
  | _ :: t, O => v :: t
  | x :: t, S i' => x :: upd i' v t
  end.

(** [np.where(mask)[0]]: the indices where [mask] holds. *)
Fixpoint where_from (k : nat) (mask : list bool) : list nat :=
  match mask with
  | [] => []
  | b :: t => if b then k :: where_from (S k) t else where_from (S k) t
  end.

Definition where_true (mask : list bool) : list nat := where_from 0 mask.

(** [a[idx]] with an integer index array. *)
Definition take {A : Type} (d : A) (a : list A) (idx : list nat) : list A :=
  map (fun i => nth i a d) idx.

(** [a[idx] = v] with an integer index array and a scalar. *)
Definition put_at {A : Type} (idx : list nat) (v : A) (a : list A) : list A :=
  fold_left (fun acc i => upd i v acc) idx a.

(** [np.zeros([n, m])]. *)
Definition zeros2 (n m : nat) : list (list R) := repeat (repeat 0 m) n.

(** [np.fill_diagonal(a, v)]. *)
Definition fill_diagonal (v : R) (a : list (list R)) : list (list R) :=
  map2 (fun i row => upd i v row) (seq 0 (length a)) a.

(** [a[i, j]] of a 2-D array. *)
Definition get2 (a : list (list R)) (i j : nat) : R := nth j (nth i a []) 0.

(** [a[i, j] = v] for indices in range. *)
Definition set2 (i j : nat) (v : R) (a : list (list R)) : list (list R) :=
  upd i (upd j v (nth i a [])) a.

Definition in_range2 (a : list (list R)) (i j : nat) : bool :=
  (i <? length a)%nat && (j <? length (nth i a []))%nat.

(** The first [k] values of a random stream: what one
    [np.random.random(k)] or [np.random.normal(0, std, k)] call returns. *)
Definition draws (stream : nat -> R) (k : nat) : list R :=
  map stream (seq 0 k).

End Np.

(** ** Configuration ([configspec_radionuclidedrift]) *)

Record Config : Type := mkConfig {
  transfer_setup : string;
  slowly_fraction : bool;
  irreversible_fraction : bool;
  dissolved_diameter : R;
  particle_diameter : R;
  particle_diameter_uncertainty : R;
  species_LMM : bool;
  species_Colloid : bool;
  species_Particle_reversible : bool;
  species_Particle_slowly_reversible : bool;
  species_Particle_irreversible : bool;
  species_Sediment_reversible : bool;
  species_Sediment_slowly_reversible : bool;
  species_Sediment_irreversible : bool;
  Kd : R;
  Dc : R;
  slow_coeff : R;
  sedmixdepth : R;
  sediment_density : R;
  effective_fraction : R;
  corr_factor : R;
  porosity : R;
  layer_thick : R;
  desorption_depth : R;
  desorption_depth_uncert : R;
  (** ['processes:verticaladvection'], a setting of the host framework read
      by [update]. *)
  processes_verticaladvection : bool
}.

Definition set_slowly_fraction (b : bool) (c : Config) : Config :=
  mkConfig (transfer_setup c) b (irreversible_fraction c)
    (dissolved_diameter c) (particle_diameter c)
    (particle_diameter_uncertainty c)
    (species_LMM c) (species_Colloid c) (species_Particle_reversible c)
    (species_Particle_slowly_reversible c) (species_Particle_irreversible c)
    (species_Sediment_reversible c) (species_Sediment_slowly_reversible c)
    (species_Sediment_irreversible c)
    (Kd c) (Dc c) (slow_coeff c) (sedmixdepth c) (sediment_density c)
    (effective_fraction c) (corr_factor c) (porosity c) (layer_thick c)
    (desorption_depth c) (desorption_depth_uncert c)
    (processes_verticaladvection c).

Definition set_irreversible_fraction (b : bool) (c : Config) : Config :=
  mkConfig (transfer_setup c) (slowly_fraction c) b
    (dissolved_diameter c) (particle_diameter c)
    (particle_diameter_uncertainty c)
    (species_LMM c) (species_Colloid c) (species_Particle_reversible c)
    (species_Particle_slowly_reversible c) (species_Particle_irreversible c)
    (species_Sediment_reversible c) (species_Sediment_slowly_reversible c)
    (species_Sediment_irreversible c)
    (Kd c) (Dc c) (slow_coeff c) (sedmixdepth c) (sediment_density c)
    (effective_fraction c) (corr_factor c) (porosity c) (layer_thick c)
    (desorption_depth c) (desorption_depth_uncert c)
    (processes_verticaladvection c).

(** The [min]/[max] bounds that the configspec puts on the numeric
    settings. *)
Definition config_in_range (c : Config) : Prop :=
  0 <= dissolved_diameter c <= 100e-6 /\
  0 <= particle_diameter c <= 100e-6 /\
  0 <= particle_diameter_uncertainty c <= 100e-6 /\
  0 <= Kd c <= 1e9 /\
  0 <= Dc c <= 1e6 /\
  0 <= slow_coeff c <= 1e6 /\
  0 <= sedmixdepth c <= 100 /\
  0 <= sediment_density c <= 10000 /\
  0 <= effective_fraction c <= 1 /\
  0 <= corr_factor c <= 10 /\
  0 <= porosity c <= 1 /\
  0 <= layer_thick c <= 100 /\
  0 <= desorption_depth c <= 100 /\
  0 <= desorption_depth_uncert c <= 100.

(** ** The simulation object *)

(** A reference to an array object in one of the stores of [Sim]. *)
Definition ref : Type := nat.

(** [self.elements]: the per-particle arrays of the ensemble container.
    [lon], [lat] and [transfer_rates1D] are references to array objects;
    [transfer_rates1D] exists only once [update_transfer_rates] has run. *)
Record Elements : Type := mkElements {
  specie : list nat;
  z : list R;
  diameter : list R;
  density : list R;
  lon : ref;
  lat : ref;
  transfer_rates1D : option ref;
  terminal_velocity : list R
}.

(** [self.environment]: the particle-aligned environment snapshot. *)
Record Environment : Type := mkEnvironment {
  sea_floor_depth_below_sea_level : list R;
  conc3 : list R;
  sea_water_temperature : list R;
  sea_water_salinity : list R
}.

(** The [RadionuclideDrift] object.  The [num_*] attributes and
    [transfer_rates] are absent ([None]) until a method assigns them. *)
Record Sim : Type := mkSim {
  config : Config;
  time_step_seconds : Z;
  name_species : list string;
  nspecies : nat;
  transfer_rates : option ref;
  num_lmm : option nat;
  num_col : option nat;
  num_prev : option nat;
  num_psrev : option nat;
  num_pirrev : option nat;
  num_srev : option nat;
  num_ssrev : option nat;
  num_sirrev : option nat;
  elements : Elements;
  environment : Environment;
  arrays1 : list (list R);
  arrays2 : list (list (list R))
}.

Definition set_specie (v : list nat) (s : Elements) : Elements :=
  mkElements v (z s) (diameter s) (density s) (lon s) (lat s)
    (transfer_rates1D s) (terminal_velocity s).

Definition set_z (v : list R) (s : Elements) : Elements :=
  mkElements (specie s) v (diameter s) (density s) (lon s) (lat s)
    (transfer_rates1D s) (terminal_velocity s).

Definition set_diameter (v : list R) (s : Elements) : Elements :=
  mkElements (specie s) (z s) v (density s) (lon s) (lat s)
    (transfer_rates1D s) (terminal_velocity s).

Definition set_lon (v : ref) (s : Elements) : Elements :=
  mkElements (specie s) (z s) (diameter s) (density s) v (lat s)
    (transfer_rates1D s) (terminal_velocity s).

Definition set_lat (v : ref) (s : Elements) : Elements :=
  mkElements (specie s) (z s) (diameter s) (density s) (lon s) v
    (transfer_rates1D s) (terminal_velocity s).

Definition set_transfer_rates1D (v : option ref) (s : Elements) : Elements :=
  mkElements (specie s) (z s) (diameter s) (density s) (lon s) (lat s) v
    (terminal_velocity s).

Definition set_terminal_velocity (v : list R) (s : Elements) : Elements :=
  mkElements (specie s) (z s) (diameter s) (density s) (lon s) (lat s)
    (transfer_rates1D s) v.

Definition with_config (v : Config) (s : Sim) : Sim :=
  mkSim v (time_step_seconds s) (name_species s) (nspecies s)
    (transfer_rates s) (num_lmm s) (num_col s) (num_prev s) (num_psrev s)
    (num_pirrev s) (num_srev s) (num_ssrev s) (num_sirrev s) (elements s)
    (environment s) (arrays1 s) (arrays2 s).

Definition set_name_species (v : list string) (s : Sim) : Sim :=
  mkSim (config s) (time_step_seconds s) v (nspecies s) (transfer_rates s)
    (num_lmm s) (num_col s) (num_prev s) (num_psrev s) (num_pirrev s)
    (num_srev s) (num_ssrev s) (num_sirrev s) (elements s) (environment s)
    (arrays1 s) (arrays2 s).

Definition set_nspecies (v : nat) (s : Sim) : Sim :=
  mkSim (config s) (time_step_seconds s) (name_species s) v (transfer_rates
    s) (num_lmm s) (num_col s) (num_prev s) (num_psrev s) (num_pirrev s)
    (num_srev s) (num_ssrev s) (num_sirrev s) (elements s) (environment s)
    (arrays1 s) (arrays2 s).

Definition set_transfer_rates (v : option ref) (s : Sim) : Sim :=
  mkSim (config s) (time_step_seconds s) (name_species s) (nspecies s) v
    (num_lmm s) (num_col s) (num_prev s) (num_psrev s) (num_pirrev s)
    (num_srev s) (num_ssrev s) (num_sirrev s) (elements s) (environment s)
    (arrays1 s) (arrays2 s).

Definition set_num_lmm (v : option nat) (s : Sim) : Sim :=
  mkSim (config s) (time_step_seconds s) (name_species s) (nspecies s)
    (transfer_rates s) v (num_col s) (num_prev s) (num_psrev s) (num_pirrev
    s) (num_srev s) (num_ssrev s) (num_sirrev s) (elements s) (environment
    s) (arrays1 s) (arrays2 s).

Definition set_num_col (v : option nat) (s : Sim) : Sim :=
  mkSim (config s) (time_step_seconds s) (name_species s) (nspecies s)
    (transfer_rates s) (num_lmm s) v (num_prev s) (num_psrev s) (num_pirrev
    s) (num_srev s) (num_ssrev s) (num_sirrev s) (elements s) (environment
    s) (arrays1 s) (arrays2 s).

Definition set_num_prev (v : option nat) (s : Sim) : Sim :=
  mkSim (config s) (time_step_seconds s) (name_species s) (nspecies s)
    (transfer_rates s) (num_lmm s) (num_col s) v (num_psrev s) (num_pirrev
    s) (num_srev s) (num_ssrev s) (num_sirrev s) (elements s) (environment
    s) (arrays1 s) (arrays2 s).

Definition set_num_psrev (v : option nat) (s : Sim) : Sim :=
  mkSim (config s) (time_step_seconds s) (name_species s) (nspecies s)
    (transfer_rates s) (num_lmm s) (num_col s) (num_prev s) v (num_pirrev s)
    (num_srev s) (num_ssrev s) (num_sirrev s) (elements s) (environment s)
    (arrays1 s) (arrays2 s).

Definition set_num_srev (v : option nat) (s : Sim) : Sim :=
  mkSim (config s) (time_step_seconds s) (name_species s) (nspecies s)
    (transfer_rates s) (num_lmm s) (num_col s) (num_prev s) (num_psrev s)
    (num_pirrev s) v (num_ssrev s) (num_sirrev s) (elements s) (environment
    s) (arrays1 s) (arrays2 s).

Definition set_num_ssrev (v : option nat) (s : Sim) : Sim :=
  mkSim (config s) (time_step_seconds s) (name_species s) (nspecies s)
    (transfer_rates s) (num_lmm s) (num_col s) (num_prev s) (num_psrev s)
    (num_pirrev s) (num_srev s) v (num_sirrev s) (elements s) (environment
    s) (arrays1 s) (arrays2 s).

Definition set_elements (v : Elements) (s : Sim) : Sim :=
  mkSim (config s) (time_step_seconds s) (name_species s) (nspecies s)
    (transfer_rates s) (num_lmm s) (num_col s) (num_prev s) (num_psrev s)
    (num_pirrev s) (num_srev s) (num_ssrev s) (num_sirrev s) v (environment
    s) (arrays1 s) (arrays2 s).

Definition set_arrays1 (v : list (list R)) (s : Sim) : Sim :=
  mkSim (config s) (time_step_seconds s) (name_species s) (nspecies s)
    (transfer_rates s) (num_lmm s) (num_col s) (num_prev s) (num_psrev s)
    (num_pirrev s) (num_srev s) (num_ssrev s) (num_sirrev s) (elements s)
    (environment s) v (arrays2 s).

Definition set_arrays2 (v : list (list (list R))) (s : Sim) : Sim :=
  mkSim (config s) (time_step_seconds s) (name_species s) (nspecies s)
    (transfer_rates s) (num_lmm s) (num_col s) (num_prev s) (num_psrev s)
    (num_pirrev s) (num_srev s) (num_ssrev s) (num_sirrev s) (elements s)
    (environment s) (arrays1 s) v.

(** ** Methods as computations in a state-and-exception monad *)

(** How a method call ends: it returns a value or raises an exception,
    named by its Python class. *)
Inductive outcome (A : Type) : Type :=
| Ret (a : A)
| Raise (exn : string).

Arguments Ret {A} a.
Arguments Raise {A} exn.

(** A method body: from the object before the call to the way the call ends
    and the object after it.  The object after a [Raise] carries the
    mutations made before the exception. *)
Definition M (A : Type) : Type := Sim -> outcome A * Sim.

Definition ret {A : Type} (a : A) : M A := fun s => (Ret a, s).

Definition bind {A B : Type} (m : M A) (k : A -> M B) : M B :=
  fun s =>
    match m s with
    | (Ret a, s') => k a s'
    | (Raise e, s') => (Raise e, s')
    end.

Definition raise {A : Type} (e : string) : M A := fun s => (Raise e, s).

Definition gets {A : Type} (f : Sim -> A) : M A := fun s => (Ret (f s), s).

Definition modify (f : Sim -> Sim) : M unit := fun s => (Ret tt, f s).

Declare Scope py_scope.
Delimit Scope py_scope with py.

Notation "x <- m ;; k" := (bind m (fun x => k))
  (at level 61, m at next level, right associativity) : py_scope.
Notation "m ;; k" := (bind m (fun _ => k))
  (at level 61, right associativity) : py_scope.

Open Scope py_scope.

(** Reading an attribute of [self] that only exists once assigned. *)
Definition attr {A : Type} (f : Sim -> option A) : M A :=
  fun s =>
    match f s with
    | Some v => (Ret v, s)
    | None => (Raise "AttributeError", s)
    end.

(** [self.get_config(...)]. *)
Definition get_config {A : Type} (f : Config -> A) : M A :=
  gets (fun s => f (config s)).

(** [self.set_config(...)]. *)
Definition set_config (f : Config -> Config) : M unit :=
  modify (fun s => with_config (f (config s)) s).

(** Reading and rebinding an attribute of [self.elements]. *)
Definition get_elements {A : Type} (f : Elements -> A) : M A :=
  gets (fun s => f (elements s)).

Definition modify_elements (f : Elements -> Elements) : M unit :=
  modify (fun s => set_elements (f (elements s)) s).

(** The state a call leaves and the way it ended. *)
Definition final {A : Type} (r : outcome A * Sim) : Sim := snd r.
Definition ended {A : Type} (r : outcome A * Sim) : outcome A := fst r.

(** *** Array objects *)

(** A new 1-D array object. *)
Definition new1 (a : list R) : M ref :=
  fun s => (Ret (length (arrays1 s)), set_arrays1 (arrays1 s ++ [a]) s).

Definition load1 (r : ref) : M (list R) :=
  gets (fun s => nth r (arrays1 s) []).

(** Writing into an existing 1-D array object, in place. *)
Definition store1 (r : ref) (a : list R) : M unit :=
  modify (fun s => set_arrays1 (Np.upd r a (arrays1 s)) s).

(** A new 2-D array object. *)
Definition new2 (a : list (list R)) : M ref :=
  fun s => (Ret (length (arrays2 s)), set_arrays2 (arrays2 s ++ [a]) s).

Definition load2 (r : ref) : M (list (list R)) :=
  gets (fun s => nth r (arrays2 s) []).

(** Writing into an existing 2-D array object, in place. *)
Definition store2 (r : ref) (a : list (list R)) : M unit :=
  modify (fun s => set_arrays2 (Np.upd r a (arrays2 s)) s).

(** *** Random draws and the host framework *)

(** One stream per [np.random] call site of the class: the uniform draws
    [ran1] and [ran4] of [update_speciation], the Gaussian draws of
    [update_radionuclide_diameter] (one per particulate compartment) and of
    [desorption_from_sediments]. *)
Record Random : Type := mkRandom {
  ran1 : nat -> R;
  ran4 : nat -> R;
  normal_prev : nat -> R;
  normal_psrev : nat -> R;
  normal_pirrev : nat -> R;
  normal_desorption : nat -> R
}.

(** The methods that [RadionuclideDrift] inherits from
    [OpenDrift3DSimulation]: they are not part of this class and are taken
    as given. *)
Record Host : Type := mkHost {
  sea_water_density : R -> R -> R;
  vertical_mixing : M unit;
  advect_ocean_current : M unit;
  vertical_advection : M unit
}.

(** ** The class [RadionuclideDrift] *)

(** [list.index]. *)
Fixpoint index_of (name : string) (l : list string) : option nat :=
  match l with
  | [] => None
  | x :: t =>
      if String.eqb x name then Some 0%nat
      else option_map S (index_of name t)
  end.

Definition specie_num2name (num : nat) : M string :=
  ns <- gets name_species ;;
  match nth_error ns num with
  | Some name => ret name
  | None => raise "IndexError"
  end.

Definition specie_name2num (name : string) : M nat :=
  ns <- gets name_species ;;
  match index_of name ns with
  | Some num => ret num
  | None => raise "ValueError"
  end.

(** [self.transfer_rates[i, j] = v]. *)
Definition setitem_transfer_rates (i j : nat) (v : R) : M unit :=
  r <- attr transfer_rates ;;
  m <- load2 r ;;
  if Np.in_range2 m i j then store2 r (Np.set2 i j v m)
  else raise "IndexError".

(** Python's [/] on two floats. *)
Definition py_div (x y : R) : M R :=
  if Req_dec_T y 0 then raise "ZeroDivisionError" else ret (x / y).

Definition init_transfer_rates : M unit :=
  setup <- get_config transfer_setup ;;
  n <- gets nspecies ;;
  r <- new2 (Np.zeros2 n n) ;;
  modify (set_transfer_rates (Some r)) ;;
  (if String.eqb setup "Bokna_137Cs" then
     i <- specie_name2num "LMM" ;; modify (set_num_lmm (Some i)) ;;
     i <- specie_name2num "Particle reversible" ;;
     modify (set_num_prev (Some i)) ;;
     i <- specie_name2num "Sediment reversible" ;;
     modify (set_num_srev (Some i)) ;;
     i <- specie_name2num "Particle slowly reversible" ;;
     modify (set_num_psrev (Some i)) ;;
     i <- specie_name2num "Sediment slowly reversible" ;;
     modify (set_num_ssrev (Some i)) ;;
     Kd_ <- get_config Kd ;;
     Dc_ <- get_config Dc ;;
     slow_coeff_ <- get_config slow_coeff ;;
     let susp_mat := 1e-3 in
     sedmixdepth_ <- get_config sedmixdepth ;;
     default_density <- get_config sediment_density ;;
     f <- get_config effective_fraction ;;
     phi <- get_config corr_factor ;;
     poro <- get_config porosity ;;
     layer_thick_ <- get_config layer_thick ;;
     lmm <- attr num_lmm ;; prev <- attr num_prev ;;
     setitem_transfer_rates lmm prev (Dc_ * Kd_ * susp_mat) ;;
     prev <- attr num_prev ;; lmm <- attr num_lmm ;;
     setitem_transfer_rates prev lmm Dc_ ;;
     v <- py_div
            (Dc_ * Kd_ * sedmixdepth_ * default_density * (1 - poro) * f * phi)
            layer_thick_ ;;
     lmm <- attr num_lmm ;; srev <- attr num_srev ;;
     setitem_transfer_rates lmm srev v ;;
     srev <- attr num_srev ;; lmm <- attr num_lmm ;;
     setitem_transfer_rates srev lmm (Dc_ * phi) ;;
     srev <- attr num_srev ;; ssrev <- attr num_ssrev ;;
     setitem_transfer_rates srev ssrev slow_coeff_ ;;
     prev <- attr num_prev ;; psrev <- attr num_psrev ;;
     setitem_transfer_rates prev psrev slow_coeff_ ;;
     ssrev <- attr num_ssrev ;; srev <- attr num_srev ;;
     setitem_transfer_rates ssrev srev (slow_coeff_ * 0.1) ;;
     psrev <- attr num_psrev ;; prev <- attr num_prev ;;
     setitem_transfer_rates psrev prev (slow_coeff_ * 0.1)
   else if String.eqb setup "dummy" then
     i <- specie_name2num "LMM" ;; modify (set_num_lmm (Some i)) ;;
     colloid <- get_config species_Colloid ;;
     (if colloid then
        i <- specie_name2num "Colloid" ;; modify (set_num_col (Some i))
      else ret tt) ;;
     i <- specie_name2num "Particle reversible" ;;
     modify (set_num_prev (Some i)) ;;
     i <- specie_name2num "Sediment reversible" ;;
     modify (set_num_srev (Some i)) ;;
     slowly <- get_config slowly_fraction ;;
     (if slowly then
        i <- specie_name2num "Particle slowly reversible" ;;
        modify (set_num_psrev (Some i)) ;;
        i <- specie_name2num "Sediment slowly reversible" ;;
        modify (set_num_ssrev (Some i))
      else ret tt) ;;
     lmm <- attr num_lmm ;; prev <- attr num_prev ;;
     setitem_transfer_rates lmm prev 1e-5 ;;
     srev <- attr num_srev ;; lmm <- attr num_lmm ;;
     setitem_transfer_rates srev lmm 5e-6 ;;
     slowly <- get_config slowly_fraction ;;
     (if slowly then
        prev <- attr num_prev ;; psrev <- attr num_psrev ;;
        setitem_transfer_rates prev psrev 2e-6 ;;
        srev <- attr num_srev ;; ssrev <- attr num_ssrev ;;
        setitem_transfer_rates srev ssrev 2e-6 ;;
        psrev <- attr num_psrev ;; prev <- attr num_prev ;;
        setitem_transfer_rates psrev prev 2e-7 ;;
        ssrev <- attr num_ssrev ;; srev <- attr num_srev ;;
        setitem_transfer_rates ssrev srev 2e-7
      else ret tt)
   else
     (* [logging.ERROR('No transfer setup available')]: [logging.ERROR] is
        the integer level 40, and calling an int raises [TypeError]. *)
     raise "TypeError") ;;
  r <- attr transfer_rates ;;
  m <- load2 r ;;
  store2 r (Np.fill_diagonal 0 m).

(** [name_species.append(name)] under its configuration flag. *)
Definition append_species (flag : Config -> bool) (name : string) : M unit :=
  enabled <- get_config flag ;;
  if enabled then modify (fun s => set_name_species (name_species s ++ [name]) s)
  else ret tt.

Definition prepare_run : M unit :=
  modify (set_name_species []) ;;
  append_species species_LMM "LMM" ;;
  append_species species_Colloid "Colloid" ;;
  append_species species_Particle_reversible "Particle reversible" ;;
  append_species species_Particle_slowly_reversible
    "Particle slowly reversible" ;;
  append_species species_Particle_irreversible "Particle irreversible" ;;
  append_species species_Sediment_reversible "Sediment reversible" ;;
  append_species species_Sediment_slowly_reversible
    "Sediment slowly reversible" ;;
  append_species species_Sediment_irreversible "Sediment irreversible" ;;
  sed_slow <- get_config species_Sediment_slowly_reversible ;;
  part_slow <- get_config species_Particle_slowly_reversible ;;
  (if sed_slow && part_slow then set_config (set_slowly_fraction true)
   else ret tt) ;;
  sed_irr <- get_config species_Sediment_irreversible ;;
  part_irr <- get_config species_Particle_irreversible ;;
  (if sed_irr && part_irr then set_config (set_irreversible_fraction true)
   else ret tt) ;;
  modify (fun s => set_nspecies (length (name_species s)) s) ;;
  init_transfer_rates.

(** The terminal velocity of one particle, as [update_terminal_velocity]
    computes it elementwise when called without profiles (the way [update]
    calls it).  Fractional powers are [Rpower]. *)
Definition terminal_velocity_of (DENSw T0 S0 partsize DENSpart : R) : R :=
  let g := 9.81 in
  let dr := DENSw - DENSpart in
  let my_w := 0.001 * (1.7915 - 0.0538 * T0 + 0.007 * (T0 ^ 2) - 0.0023 * S0) in
  let W := (1.0 / my_w) * (1.0 / 18.0) * g * partsize ^ 2 * dr in
  let highRe := Np.Rgtb (W * 1000 * partsize / my_w) 0.5 in
  let my_w := 0.01854 * exp (- 0.02783 * T0) in
  let d0 := (partsize * 100)
            - 0.4 * Rpower (9.0 * my_w ^ 2 / (100 * g) * DENSw / dr)
                      (1.0 / 3.0) in
  let W2 := 19.0 * d0 * Rpower (0.001 * dr) (2.0 / 3.0)
            * Rpower (my_w * 0.001 * DENSw) (- 1.0 / 3.0) in
  let W2 := W2 / 100 in
  if highRe then W2 else W.

Definition update_terminal_velocity (host : Host) : M unit :=
  partsize <- get_elements diameter ;;
  env <- gets environment ;;
  let T0 := sea_water_temperature env in
  let S0 := sea_water_salinity env in
  DENSpart <- get_elements density ;;
  let W :=
    map (fun i =>
           terminal_velocity_of
             (sea_water_density host (nth i T0 0) (nth i S0 0))
             (nth i T0 0) (nth i S0 0) (nth i partsize 0) (nth i DENSpart 0))
        (seq 0 (length partsize)) in
  modify_elements (set_terminal_velocity W).

(** [self.elements.transfer_rates1D[mask, col]]. *)
Definition getcol_transfer_rates1D (mask : list bool) (col : nat)
  : M (list R) :=
  r <- attr (fun s => transfer_rates1D (elements s)) ;;
  a <- load2 r ;;
  if forallb (fun row => (col <? length row)%nat) (Np.select mask a)
  then ret (map (fun row => nth col row 0) (Np.select mask a))
  else raise "IndexError".

(** [self.elements.transfer_rates1D[mask, col] = vals]. *)
Definition setcol_transfer_rates1D (mask : list bool) (col : nat)
    (vals : list R) : M unit :=
  r <- attr (fun s => transfer_rates1D (elements s)) ;;
  a <- load2 r ;;
  if forallb (fun row => (col <? length row)%nat) (Np.select mask a)
  then store2 r (Np.put mask
                   (Np.map2 (fun row v => Np.upd col v row)
                      (Np.select mask a) vals) a)
  else raise "IndexError".

Definition update_transfer_rates : M unit :=
  tr <- attr transfer_rates ;;
  m <- load2 tr ;;
  sp <- get_elements specie ;;
  (* indexing with an integer array copies the selected rows *)
  (if forallb (fun s => (s <? length m)%nat) sp then ret tt
   else raise "IndexError") ;;
  r1d <- new2 (map (fun s => nth s m []) sp) ;;
  modify_elements (set_transfer_rates1D (Some r1d)) ;;
  env <- gets environment ;;
  let Zmin := map (fun d => -1 * d) (sea_floor_depth_below_sea_level env) in
  interaction_thick <- get_config layer_thick ;;
  zz <- get_elements z ;;
  let dist_to_seabed := Np.map2 Rminus zz Zmin in
  sp <- get_elements specie ;;
  lmm <- attr num_lmm ;;
  srev <- attr num_srev ;;
  let mask :=
    Np.map2 andb (map (fun s => (s =? lmm)%nat) sp)
      (map (fun d => Np.Rgtb d interaction_thick) dist_to_seabed) in
  setcol_transfer_rates1D mask srev (repeat 0 (Np.count_true mask)) ;;
  sp <- get_elements specie ;;
  lmm <- attr num_lmm ;;
  let kktmp := map (fun s => (s =? lmm)%nat) sp in
  prev <- attr num_prev ;;
  col <- getcol_transfer_rates1D kktmp prev ;;
  env <- gets environment ;;
  setcol_transfer_rates1D kktmp prev
    (Np.map2 (fun r c => r * c / 1e-3) col (Np.select kktmp (conc3 env))).

(** The boolean arrays [(sp_out==num) & (sp_in!=num)] and
    [(sp_out==dst) & (sp_in==src)]. *)
Definition entered (num : nat) (sp_in sp_out : list nat) : list bool :=
  Np.map2 andb (map (fun s => (s =? num)%nat) sp_out)
    (map (fun s => negb (s =? num)%nat) sp_in).

Definition moved (src dst : nat) (sp_in sp_out : list nat) : list bool :=
  Np.map2 andb (map (fun s => (s =? dst)%nat) sp_out)
    (map (fun s => (s =? src)%nat) sp_in).

(** [self.elements.diameter[mask] = v] and
    [self.elements.diameter[mask] += noise]. *)
Definition diameter_fill (mask : list bool) (v : R) : M unit :=
  modify_elements (fun e => set_diameter (Np.fill mask v (diameter e)) e).

Definition diameter_add (mask : list bool) (noise : list R) : M unit :=
  modify_elements
    (fun e => set_diameter
                (Np.put mask (Np.map2 Rplus (Np.select mask (diameter e)) noise)
                   (diameter e)) e).

(** [self.elements.z[mask] = vals] and [self.elements.z[mask] += noise]. *)
Definition z_put (mask : list bool) (vals : list R) : M unit :=
  modify_elements (fun e => set_z (Np.put mask vals (z e)) e).

Definition z_add (mask : list bool) (noise : list R) : M unit :=
  modify_elements
    (fun e => set_z
                (Np.put mask (Np.map2 Rplus (Np.select mask (z e)) noise)
                   (z e)) e).

Definition sorption_to_sediments (sp_in sp_out : list nat) : M unit :=
  env <- gets environment ;;
  srev <- attr num_srev ;;
  lmm <- attr num_lmm ;;
  let mask := moved lmm srev sp_in sp_out in
  z_put mask
    (map (fun d => -1 * d)
       (Np.select mask (sea_floor_depth_below_sea_level env))).

Definition desorption_from_sediments (rnd : Random) (sp_in sp_out : list nat)
  : M unit :=
  desorption_depth_ <- get_config desorption_depth ;;
  std <- get_config desorption_depth_uncert ;;
  env <- gets environment ;;
  lmm <- attr num_lmm ;;
  srev <- attr num_srev ;;
  let mask := moved srev lmm sp_in sp_out in
  z_put mask
    (map (fun d => d + desorption_depth_)
       (Np.select mask (sea_floor_depth_below_sea_level env))) ;;
  if Np.Rgtb std 0 then
    z_add mask (Np.draws (normal_desorption rnd) (Np.count_true mask))
  else ret tt.

Definition update_radionuclide_diameter (rnd : Random)
    (sp_in sp_out : list nat) : M unit :=
  dia_part <- get_config particle_diameter ;;
  dia_diss <- get_config dissolved_diameter ;;
  (* Transfer to reversible particles *)
  prev <- attr num_prev ;;
  diameter_fill (entered prev sp_in sp_out) dia_part ;;
  std <- get_config particle_diameter_uncertainty ;;
  (if Np.Rgtb std 0 then
     prev <- attr num_prev ;;
     let mask := entered prev sp_in sp_out in
     diameter_add mask (Np.draws (normal_prev rnd) (Np.count_true mask))
   else ret tt) ;;
  (* Transfer to slowly reversible particles *)
  slowly <- get_config slowly_fraction ;;
  (if slowly then
     psrev <- attr num_psrev ;;
     diameter_fill (entered psrev sp_in sp_out) dia_part ;;
     if Np.Rgtb std 0 then
       psrev <- attr num_psrev ;;
       let mask := entered psrev sp_in sp_out in
       diameter_add mask (Np.draws (normal_psrev rnd) (Np.count_true mask))
     else ret tt
   else ret tt) ;;
  (* Transfer to irreversible particles *)
  irreversible <- get_config irreversible_fraction ;;
  (if irreversible then
     pirrev <- attr num_pirrev ;;
     diameter_fill (entered pirrev sp_in sp_out) dia_part ;;
     if Np.Rgtb std 0 then
       pirrev <- attr num_pirrev ;;
       let mask := entered pirrev sp_in sp_out in
       diameter_add mask (Np.draws (normal_pirrev rnd) (Np.count_true mask))
     else ret tt
   else ret tt) ;;
  (* Transfer to LMM *)
  lmm <- attr num_lmm ;;
  diameter_fill (entered lmm sp_in sp_out) dia_diss ;;
  (* Transfer to colloids *)
  colloid <- get_config species_Colloid ;;
  if colloid then
    col <- attr num_col ;;
    diameter_fill (entered col sp_in sp_out) dia_diss
  else ret tt.

(** The probability of transformation of line 430,
    [1. - np.exp(-transfer_rates1D*deltat)], and its row sums. *)
Definition transformation_probability (deltat : Z) (rates : list (list R))
  : list (list R) :=
  map (map (fun x => 1 - exp (- x * IZR deltat))) rates.

(** The destination of one transforming particle (line 448):
    [np.searchsorted(np.cumsum(p_ii / psum_ii), ran4_ii)]. *)
Definition destination (p_ii : list R) (psum_ii ran4_ii : R) : nat :=
  Np.searchsorted (Np.cumsum (map (fun x => x / psum_ii) p_ii)) ran4_ii.

Definition update_speciation (rnd : Random) : M unit :=
  specie_in <- get_elements specie ;;
  specie_out <- get_elements specie ;;
  deltat <- gets time_step_seconds ;;
  let n := length specie_in in
  let phaseshift := repeat false n in
  r <- attr (fun s => transfer_rates1D (elements s)) ;;
  rates <- load2 r ;;
  let p := transformation_probability deltat rates in
  let psum := map Np.sum p in
  let ran1_ := Np.draws (ran1 rnd) n in
  (* Transformation where ran1 < total probability for transformation *)
  let phaseshift := Np.fill (Np.map2 Np.Rltb ran1_ psum) true phaseshift in
  if (Np.count_true phaseshift =? 0)%nat then ret tt
  else
    let ran4_ := Np.draws (ran4 rnd) (Np.count_true phaseshift) in
    let ttmp :=
      map (fun ii =>
             destination (nth ii (Np.select phaseshift p) [])
               (nth ii (Np.select phaseshift psum) 0) (nth ii ran4_ 0))
          (seq 0 (Np.count_true phaseshift)) in
    let specie_out := Np.put phaseshift ttmp specie_out in
    modify_elements (set_specie specie_out) ;;
    update_radionuclide_diameter rnd specie_in specie_out ;;
    sorption_to_sediments specie_in specie_out ;;
    desorption_from_sediments rnd specie_in specie_out.

(** One particulate-to-sediment mapping of [bottom_interaction]:
    [kktmp = where(specie[bottom] == src)]; [specie[bottom[kktmp]] = dst]. *)
Definition deposit (bottom : list nat) (src dst : nat) : M unit :=
  sp <- get_elements specie ;;
  let kktmp :=
    Np.where_true (map (fun s => (s =? src)%nat) (Np.take 0%nat sp bottom)) in
  modify_elements
    (fun e => set_specie
                (Np.put_at (Np.take 0%nat bottom kktmp) dst (specie e)) e).

Definition bottom_interaction (Zmin : list R) : M unit :=
  zz <- get_elements z ;;
  let bottom := Np.where_true (Np.map2 Np.Rleb zz Zmin) in
  prev <- attr num_prev ;;
  srev <- attr num_srev ;;
  deposit bottom prev srev ;;
  slowly <- get_config slowly_fraction ;;
  (if slowly then
     psrev <- attr num_psrev ;;
     ssrev <- attr num_ssrev ;;
     deposit bottom psrev ssrev
   else ret tt) ;;
  irreversible <- get_config irreversible_fraction ;;
  if irreversible then
    pirrev <- attr num_pirrev ;;
    sirrev <- attr num_sirrev ;;
    deposit bottom pirrev sirrev
  else ret tt.

(** [self.elements.lon[specie==num] = lon[specie==num]] of [update], where
    the right-hand [lon] is the array object that [self.elements.lon] named
    before the advection (likewise for [lat]). *)
Definition reset_position (field : Elements -> ref) (saved : ref)
    (num : nat) : M unit :=
  sp <- get_elements specie ;;
  let mask := map (fun s => (s =? num)%nat) sp in
  old <- load1 saved ;;
  cur <- get_elements field ;;
  a <- load1 cur ;;
  store1 cur (Np.put mask (Np.select mask old) a).

(** [self.elements.z[specie==num] = z_before[specie==num]]. *)
Definition reset_z (z_before : list R) (num : nat) : M unit :=
  sp <- get_elements specie ;;
  let mask := map (fun s => (s =? num)%nat) sp in
  z_put mask (Np.select mask z_before).

Definition update (host : Host) (rnd : Random) : M unit :=
  (* Radionuclide speciation *)
  update_transfer_rates ;;
  update_speciation rnd ;;
  (* Turbulent Mixing *)
  z_before <- get_elements z ;;
  update_terminal_velocity host ;;
  vertical_mixing host ;;
  (* Horizontal advection *)
  lon_ <- get_elements lon ;;
  lat_ <- get_elements lat ;;
  advect_ocean_current host ;;
  (* Reset lat lon for sedimented trajectories *)
  srev <- attr num_srev ;;
  reset_position lon lon_ srev ;;
  srev <- attr num_srev ;;
  reset_position lat lat_ srev ;;
  slowly <- get_config slowly_fraction ;;
  (if slowly then
     ssrev <- attr num_ssrev ;;
     reset_position lon lon_ ssrev ;;
     ssrev <- attr num_ssrev ;;
     reset_position lat lat_ ssrev
   else ret tt) ;;
  irreversible <- get_config irreversible_fraction ;;
  (if irreversible then
     sirrev <- attr num_sirrev ;;
     reset_position lon lon_ sirrev ;;
     sirrev <- attr num_sirrev ;;
     reset_position lat lat_ sirrev
   else ret tt) ;;
  (* Vertical advection *)
  vadv <- get_config processes_verticaladvection ;;
  (if vadv then vertical_advection host else ret tt) ;;
  (* Reset z for sedimented trajectories *)
  srev <- attr num_srev ;;
  reset_z z_before srev ;;
  slowly <- get_config slowly_fraction ;;
  (if slowly then ssrev <- attr num_ssrev ;; reset_z z_before ssrev
   else ret tt) ;;
  irreversible <- get_config irreversible_fraction ;;
  if irreversible then sirrev <- attr num_sirrev ;; reset_z z_before sirrev
  else ret tt.

(** ** Predicates used in the statements *)

(** A property of the object that a computation maintains, whichever way
    the computation ends. *)
Definition keeps {A : Type} (I : Sim -> Prop) (m : M A) : Prop :=
  forall s, I s -> I (final (m s)).

(** The contents of the rate matrix [self.transfer_rates], when the
    attribute exists. *)
Definition matrix_of (s : Sim) : option (list (list R)) :=
  option_map (fun r => nth r (arrays2 s) []) (transfer_rates s).

(** The contents of [self.elements.transfer_rates1D]. *)
Definition rates1D_of (s : Sim) : option (list (list R)) :=
  option_map (fun r => nth r (arrays2 s) []) (transfer_rates1D (elements s)).

(** The contents of [self.elements.lon] and [self.elements.lat]. *)
Definition lon_of (s : Sim) : list R := nth (lon (elements s)) (arrays1 s) [].
Definition lat_of (s : Sim) : list R := nth (lat (elements s)) (arrays1 s) [].

(** Every entry of a row, or of a matrix, is non-negative. *)
Definition nonneg_row (row : list R) : Prop := Forall (fun x => 0 <= x) row.
Definition nonneg_matrix (m : list (list R)) : Prop := Forall nonneg_row m.

(** An [n] by [n] array. *)
Definition square (n : nat) (m : list (list R)) : Prop :=
  length m = n /\ Forall (fun row => length row = n) m.

(** A property of the object that does not read [elements.z], respectively
    [elements.diameter], [elements.specie], [elements.terminal_velocity]. *)
Definition ignores_z (I : Sim -> Prop) : Prop :=
  forall s v, I s -> I (set_elements (set_z v (elements s)) s).

Definition ignores_diameter (I : Sim -> Prop) : Prop :=
  forall s v, I s -> I (set_elements (set_diameter v (elements s)) s).

Definition ignores_specie (I : Sim -> Prop) : Prop :=
  forall s v, I s -> I (set_elements (set_specie v (elements s)) s).

Definition ignores_terminal_velocity (I : Sim -> Prop) : Prop :=
  forall s v, I s -> I (set_elements (set_terminal_velocity v (elements s)) s).

(** ** Example objects *)

(** The default configuration with the compartments LMM, Particle
    reversible and Sediment reversible enabled. *)
Definition example_config : Config :=
  mkConfig "dummy" false false 0 5e-6 1e-7
    true false true false false true false false
    0 1.16e-5 1.2e-7
    1 2600 0.9 0.1 0.6 1 10 1
    false.

(** The streams of a random source that returns [u] as every first draw
    and [v] as every second draw of [update_speciation], and no noise. *)
Definition constant_draws (u v : R) : Random :=
  mkRandom (fun _ => u) (fun _ => v)
    (fun _ => 0) (fun _ => 0) (fun _ => 0) (fun _ => 0).

(** The matrix of the dummy setup for the compartments LMM, Particle
    reversible and Sediment reversible. *)
Definition dummy_matrix : list (list R) :=
  [[0; 1e-5; 0]; [0; 0; 0]; [5e-6; 0; 0]].

(** One particle in compartment [sp], 50 m below the surface over a
    seafloor at 100 m, in a run with the three compartments LMM, Particle
    reversible and Sediment reversible and a timestep of [dt] seconds,
    after the rate projection: [row] is its projected rate row. *)
Definition one_particle (cfg : Config) (dt : Z) (sp : nat) (row : list R)
  : Sim :=
  mkSim cfg dt ["LMM"; "Particle reversible"; "Sediment reversible"] 3
    (Some 0%nat) (Some 0%nat) None (Some 1%nat) None None (Some 2%nat)
    None None
    (mkElements [sp] [-50] [0] [2650] 0%nat 1%nat (Some 1%nat) [0])
    (mkEnvironment [100] [1e-3] [10] [34])
    [[5]; [60]] [dummy_matrix; [row]].

(** The state of the matrix under construction in [init_transfer_rates]:
    the configuration is [cfg] and [self.transfer_rates] names an [n] by [n]
    array object without negative entries. *)
Definition rates_built (cfg : Config) (n : nat) (s : Sim) : Prop :=
  config s = cfg /\
  exists r, transfer_rates s = Some r /\
            (r < length (arrays2 s))%nat /\
            square n (nth r (arrays2 s) []) /\
            nonneg_matrix (nth r (arrays2 s) []).

(** A fresh object, before [prepare_run]: no species, no matrix, no
    particles. *)
Definition fresh_sim (cfg : Config) (dt : Z) : Sim :=
  mkSim cfg dt [] 0 None None None None None None None None None
    (mkElements [] [] [] [] 0%nat 1%nat None [])
    (mkEnvironment [] [] [] [])
    [[]; []] [].

(** The default configuration with an unknown transfer setup. *)
Definition unknown_setup_config : Config :=
  mkConfig "Bokna_90Sr" false false 0 5e-6 1e-7
    true false true false false true false false
    0 1.16e-5 1.2e-7
    1 2600 0.9 0.1 0.6 1 10 1
    false.

(** The state [update_transfer_rates] expects: the matrix [m] is stored
    under [self.transfer_rates], the three compartment indices the method
    reads are assigned, distinct where it matters and inside every row, the
    particles' compartments index rows of [m], and the particle-aligned
    arrays have one length. *)
Definition projection_ready (st : Sim) (m : list (list R))
    (lmm prev srev : nat) : Prop :=
  (exists tr, transfer_rates st = Some tr /\
              (tr < length (arrays2 st))%nat /\
              nth tr (arrays2 st) [] = m) /\
  num_lmm st = Some lmm /\
  num_prev st = Some prev /\
  num_srev st = Some srev /\
  prev <> srev /\
  Forall (fun row => (prev < length row)%nat /\ (srev < length row)%nat) m /\
  Forall (fun s => (s < length m)%nat) (specie (elements st)) /\
  length (z (elements st)) = length (specie (elements st)) /\
  length (sea_floor_depth_below_sea_level (environment st)) =
    length (specie (elements st)) /\
  length (conc3 (environment st)) = length (specie (elements st)).

(** The effective rate of one particle towards compartment [j], in the
    words of the specification: the entry of the matrix row of its
    compartment [s]; for a dissolved particle whose distance above the
    seafloor ([zz + depth]) exceeds the interaction-layer thickness the
    entry towards sediment-reversible is zero, and the entry of a dissolved
    particle towards particle-reversible is multiplied by
    [conc / 1e-3]. *)
Definition projected_rate (m : list (list R)) (lmm prev srev : nat)
    (thick : R) (s : nat) (zz depth conc : R) (j : nat) : R :=
  let base := Np.get2 m s j in
  if (s =? lmm)%nat then
    if ((j =? srev)%nat && Np.Rgtb (zz + depth) thick)%bool then 0
    else if (j =? prev)%nat then base * (conc / 1e-3)
    else base
  else base.

(** The array that [update_transfer_rates] leaves in
    [elements.transfer_rates1D], as a function of what the method reads:
    the copied rows, then the two masked column assignments. *)
Definition projected_rows (m : list (list R)) (lmm prev srev : nat)
    (thick : R) (sp : list nat) (zz depth conc : list R) : list (list R) :=
  let rows0 := map (fun s => nth s m []) sp in
  let Zmin := map (fun d => -1 * d) depth in
  let dist_to_seabed := Np.map2 Rminus zz Zmin in
  let mask :=
    Np.map2 andb (map (fun s => (s =? lmm)%nat) sp)
      (map (fun d => Np.Rgtb d thick) dist_to_seabed) in
  let rows1 :=
    Np.put mask
      (Np.map2 (fun row v => Np.upd srev v row) (Np.select mask rows0)
         (repeat 0 (Np.count_true mask))) rows0 in
  let kktmp := map (fun s => (s =? lmm)%nat) sp in
  let col := map (fun row => nth prev row 0) (Np.select kktmp rows1) in
  Np.put kktmp
    (Np.map2 (fun row v => Np.upd prev v row) (Np.select kktmp rows1)
       (Np.map2 (fun r c => r * c / 1e-3) col (Np.select kktmp conc)))
    rows1.

(** The matrix [m] is stored, in a live array object, under
    [self.transfer_rates]. *)
Definition holds_matrix (m : list (list R)) (s : Sim) : Prop :=
  exists tr, transfer_rates s = Some tr /\
             (tr < length (arrays2 s))%nat /\
             nth tr (arrays2 s) [] = m.

(** The matrix is stored and [elements.transfer_rates1D] names another
    array object. *)
Definition holds_matrix_apart (m : list (list R)) (s : Sim) : Prop :=
  exists tr r1, transfer_rates s = Some tr /\
                (tr < length (arrays2 s))%nat /\
                nth tr (arrays2 s) [] = m /\
                transfer_rates1D (elements s) = Some r1 /\
                r1 <> tr.

(** A run prepared with configuration [cfg] (three compartments, dummy
    matrix) holding the particles [sp], [zs], with positions [lons] and
    [lats], over the seafloor depths [depth] and concentrations [conc]. *)
Definition dummy_run (cfg : Config) (dt : Z) (sp : list nat)
    (zs lons lats depth conc : list R) : Sim :=
  mkSim cfg dt ["LMM"; "Particle reversible"; "Sediment reversible"] 3
    (Some 0%nat) (Some 0%nat) None (Some 1%nat) None None (Some 2%nat)
    None None
    (mkElements sp zs (map (fun _ => 0) sp) (map (fun _ => 2650) sp)
       0%nat 1%nat None (map (fun _ => 0) sp))
    (mkEnvironment depth conc (map (fun _ => 10) sp) (map (fun _ => 34) sp))
    [lons; lats] [dummy_matrix].

(** A host in which nothing moves. *)
Definition still_host : Host :=
  mkHost (fun _ _ => 1025) (ret tt) (ret tt) (ret tt).

(** What bottom deposition may have changed between the object [st] and
    the object [s], seen from particle [i]: [z], [diameter], the
    configuration and the compartment indices are those of [st]; a particle
    that was particle-reversible at or below its threshold is
    sediment-reversible; a particle above its threshold, or one that was in
    no particulate compartment, has its compartment of [st]. *)
Definition deposited (Zmin : list R) (st : Sim) (prev srev i : nat)
    (s : Sim) : Prop :=
  let s_i := nth i (specie (elements st)) 0%nat in
  let deep := nth i (z (elements st)) 0 <= nth i Zmin 0 in
  config s = config st /\
  num_psrev s = num_psrev st /\ num_ssrev s = num_ssrev st /\
  num_pirrev s = num_pirrev st /\ num_sirrev s = num_sirrev st /\
  z (elements s) = z (elements st) /\
  diameter (elements s) = diameter (elements st) /\
  length (specie (elements s)) = length (specie (elements st)) /\
  (s_i = prev -> deep -> nth i (specie (elements s)) 0%nat = srev) /\
  (~ deep -> nth i (specie (elements s)) 0%nat = s_i) /\
  (s_i <> prev ->
   (slowly_fraction (config st) = true -> num_psrev st <> Some s_i) ->
   (irreversible_fraction (config st) = true -> num_pirrev st <> Some s_i) ->
   nth i (specie (elements s)) 0%nat = s_i).

(** The default configuration with a desorption depth of 10 m and no
    uncertainty on it. *)
Definition zero_uncert_config : Config :=
  mkConfig "dummy" false false 0 5e-6 1e-7
    true false true false false true false false
    0 1.16e-5 1.2e-7
    1 2600 0.9 0.1 0.6 1 10 0
    false.

(** The default configuration with the irreversible compartments enabled
    as well: LMM, Particle reversible, Particle irreversible, Sediment
    reversible and Sediment irreversible. *)
Definition irreversible_config : Config :=
  mkConfig "dummy" false false 0 5e-6 1e-7
    true false true false true true false true
    0 1.16e-5 1.2e-7
    1 2600 0.9 0.1 0.6 1 10 1
    false.

(** The dummy matrix for these five compartments. *)
Definition irreversible_matrix : list (list R) :=
  [[0; 1e-5; 0; 0; 0]; [0; 0; 0; 0; 0]; [0; 0; 0; 0; 0];
   [5e-6; 0; 0; 0; 0]; [0; 0; 0; 0; 0]].

(** The object that [prepare_run] leaves for [irreversible_config], holding
    the given particles. *)
Definition irreversible_run (sp : list nat)
    (zs lons lats depth conc : list R) : Sim :=
  mkSim (set_irreversible_fraction true irreversible_config) 3600
    ["LMM"; "Particle reversible"; "Particle irreversible";
     "Sediment reversible"; "Sediment irreversible"] 5
    (Some 0%nat) (Some 0%nat) None (Some 1%nat) None None (Some 3%nat)
    None None
    (mkElements sp zs (map (fun _ => 0) sp) (map (fun _ => 2650) sp)
       0%nat 1%nat None (map (fun _ => 0) sp))
    (mkEnvironment depth conc (map (fun _ => 10) sp) (map (fun _ => 34) sp))
    [lons; lats] [irreversible_matrix].

(** A host whose turbulent mixing lifts every particle by one metre and
    whose advection moves every particle by a tenth of a degree, storing
    the new positions in new arrays. *)
Definition moving_host : Host :=
  mkHost (fun _ _ => 1025)
    (modify_elements (fun e => set_z (map (fun x => x + 1) (z e)) e))
    (a <- get_elements lon ;;
     old <- load1 a ;;
     r <- new1 (map (fun x => x + 0.1) old) ;;
     modify_elements (set_lon r) ;;
     a <- get_elements lat ;;
     old <- load1 a ;;
     r <- new1 (map (fun x => x + 0.1) old) ;;
     modify_elements (set_lat r))
    (ret tt).

(** A host with the same motion whose advection writes the new positions
    into the existing [lon] and [lat] arrays. *)
Definition inplace_host : Host :=
  mkHost (fun _ _ => 1025)
    (modify_elements (fun e => set_z (map (fun x => x + 1) (z e)) e))
    (a <- get_elements lon ;;
     old <- load1 a ;;
     store1 a (map (fun x => x + 0.1) old) ;;
     a <- get_elements lat ;;
     old <- load1 a ;;
     store1 a (map (fun x => x + 0.1) old))
    (ret tt).

(** A configuration for the 'Bokna_137Cs' setup: its five compartments
    enabled, a distribution coefficient of 2, the other settings at their
    defaults. *)
Definition bokna_config : Config :=
  mkConfig "Bokna_137Cs" false false 0 5e-6 1e-7
    true false true true false true true false
    2 1.16e-5 1.2e-7
    1 2600 0.9 0.1 0.6 1 10 1
    false.

(** Every compartment index that is assigned is the position of its name
    in [name_species], and the indices of the irreversible compartments are
    not assigned. *)
Definition indices_consistent (s : Sim) : Prop :=
  let ns := name_species s in
  (forall i, num_lmm s = Some i -> index_of "LMM" ns = Some i) /\
  (forall i, num_col s = Some i -> index_of "Colloid" ns = Some i) /\
  (forall i, num_prev s = Some i ->
     index_of "Particle reversible" ns = Some i) /\
  (forall i, num_psrev s = Some i ->
     index_of "Particle slowly reversible" ns = Some i) /\
  (forall i, num_srev s = Some i ->
     index_of "Sediment reversible" ns = Some i) /\
  (forall i, num_ssrev s = Some i ->
     index_of "Sediment slowly reversible" ns = Some i) /\
  num_pirrev s = None /\
  num_sirrev s = None.

(** An object none of whose compartment indices is assigned yet. *)
Definition indices_unassigned (s : Sim) : Prop :=
  num_lmm s = None /\ num_col s = None /\ num_prev s = None /\
  num_psrev s = None /\ num_srev s = None /\ num_ssrev s = None /\
  num_pirrev s = None /\ num_sirrev s = None.

(** The irreversible fraction is enabled and [num_sirrev] is not
    assigned. *)
Definition irreversible_unassigned (s : Sim) : Prop :=
  irreversible_fraction (config s) = true /\ num_sirrev s = None.

(** A computation that never returns normally from a state satisfying
    [I]. *)
Definition fails {A : Type} (I : Sim -> Prop) (m : M A) : Prop :=
  forall s, I s -> forall a, ended (m s) <> Ret a.

(** A configuration of the 'Bokna_137Cs' setup, within the bounds of the
    configspec, whose two rates out of LMM are both 1 per second:
    [Dc * Kd * 1e-3 = 1] and
    [Dc * Kd * sedmixdepth * sediment_density * (1 - porosity)
     * effective_fraction * corr_factor / layer_thick = 1]. *)
Definition fast_bokna_config : Config :=
  mkConfig "Bokna_137Cs" false false 0 5e-6 1e-7
    true false true true false true true false
    1000 1 1.2e-7
    1 1 1 0.001 0 1 10 1
    false.

(** The matrix of [fast_bokna_config] for the compartments LMM, Particle
    reversible, Particle slowly reversible, Sediment reversible and Sediment
    slowly reversible. *)
Definition fast_bokna_matrix : list (list R) :=
  [[0; 1; 0; 1; 0];
   [1; 0; 1.2e-7; 0; 0];
   [0; 1.2e-8; 0; 0; 0];
   [0.001; 0; 0; 0; 1.2e-7];
   [0; 0; 0; 1.2e-8; 0]].

(** One dissolved particle of that run, with a timestep of one second,
    within the interaction layer of a seafloor at 100 m and at the
    reference concentration, after the rate projection: [row] is its
    projected rate row. *)
Definition bokna_particle (row : list R) : Sim :=
  mkSim (set_slowly_fraction true fast_bokna_config) 1
    ["LMM"; "Particle reversible"; "Particle slowly reversible";
     "Sediment reversible"; "Sediment slowly reversible"] 5
    (Some 0%nat) (Some 0%nat) None (Some 1%nat) (Some 2%nat) None
    (Some 3%nat) (Some 4%nat) None
    (mkElements [0%nat] [-99.5] [0] [2650] 0%nat 1%nat (Some 1%nat) [0])
    (mkEnvironment [100] [1e-3] [10] [34])
    [[5]; [60]] [fast_bokna_matrix; [row]].

(** A computation that, from every state satisfying [I], returns and
    leaves a state satisfying [I]. *)
Definition always_returns (I : Sim -> Prop) (m : M unit) : Prop :=
  forall s, I s -> exists s', m s = (Ret tt, s') /\ I s'.

(** The object at the point where [prepare_run] calls
    [init_transfer_rates], for configuration [cfg] and the compartments LMM,
    Particle reversible and Sediment reversible. *)
Definition named_sim (cfg : Config) (dt : Z) : Sim :=
  mkSim cfg dt ["LMM"; "Particle reversible"; "Sediment reversible"] 3
    None None None None None None None None None
    (mkElements [] [] [] [] 0%nat 1%nat None [])
    (mkEnvironment [] [] [] [])
    [[]; []] [].

(** The default configuration with the slowly reversible compartments
    enabled as well: LMM, Particle reversible, Particle slowly reversible,
    Sediment reversible and Sediment slowly reversible. *)
Definition slow_dummy_config : Config :=
  mkConfig "dummy" false false 0 5e-6 1e-7
    true false true true false true true false
    0 1.16e-5 1.2e-7
    1 2600 0.9 0.1 0.6 1 10 1
    false.

(** The dummy matrix for these five compartments. *)
Definition slow_dummy_matrix : list (list R) :=
  [[0; 1e-5; 0; 0; 0];
   [0; 0; 2e-6; 0; 0];
   [0; 2e-7; 0; 0; 0];
   [5e-6; 0; 0; 0; 2e-6];
   [0; 0; 0; 2e-7; 0]].

(** One particle-reversible particle of that run, with a timestep of one
    hour, after the rate projection: its rate row is the row of Particle
    reversible, whose only non-zero rate leads to Particle slowly
    reversible. *)
Definition slow_dummy_particle : Sim :=
  mkSim (set_slowly_fraction true slow_dummy_config) 3600
    ["LMM"; "Particle reversible"; "Particle slowly reversible";
     "Sediment reversible"; "Sediment slowly reversible"] 5
    (Some 0%nat) (Some 0%nat) None (Some 1%nat) (Some 2%nat) None
    (Some 3%nat) (Some 4%nat) None
    (mkElements [1%nat] [-50] [5e-6] [2650] 0%nat 1%nat (Some 1%nat) [0])
    (mkEnvironment [100] [1e-3] [10] [34])
    [[5]; [60]] [slow_dummy_matrix; [[0; 0; 2e-6; 0; 0]]].

(** A computation that, from every state satisfying [I], runs without
    raising up to the call of [k]: it continues as [k] from a state that
    satisfies [I]. *)
Definition reaches (I : Sim -> Prop) (m k : M unit) : Prop :=
  forall s, I s -> exists s1, m s = k s1 /\ I s1.

(** * Properties *)

(** ** Array lemmas *)

Section ArrayFacts.

Import Np.

Lemma Rltb_true (x y : R) : Rltb x y = true <-> x < y.
Proof. unfold Rltb. destruct (Rlt_dec x y); split; intros; congruence || lra. Qed.

Lemma Rltb_false (x y : R) : Rltb x y = false <-> y <= x.
Proof. unfold Rltb. destruct (Rlt_dec x y); split; intros; congruence || lra. Qed.

Lemma Rleb_true (x y : R) : Rleb x y = true <-> x <= y.
Proof. unfold Rleb. destruct (Rle_dec x y); split; intros; congruence || lra. Qed.

Lemma Rleb_false (x y : R) : Rleb x y = false <-> y < x.
Proof. unfold Rleb. destruct (Rle_dec x y); split; intros; congruence || lra. Qed.

Lemma length_map2 {A B C : Type} (f : A -> B -> C) (a : list A) (b : list B) :
  length (map2 f a b) = Nat.min (length a) (length b).
Proof.
  revert b. induction a as [|x a IH]; intros [|y b]; simpl; auto.
Qed.

Lemma nth_map2 {A B C : Type} (f : A -> B -> C) (a : list A) (b : list B)
    (i : nat) (da : A) (db : B) (dc : C) :
  (i < length a)%nat -> (i < length b)%nat ->
  nth i (map2 f a b) dc = f (nth i a da) (nth i b db).
Proof.
  revert b i. induction a as [|x a IH]; intros [|y b] [|i]; simpl; intros;
    try lia; auto.
  apply IH; lia.
Qed.

Lemma length_fill {A : Type} (mask : list bool) (v : A) (a : list A) :
  length (fill mask v a) = length a.
Proof.
  revert a. induction mask as [|b m IH]; intros [|x a]; simpl; auto.
Qed.

Lemma nth_fill {A : Type} (mask : list bool) (v : A) (a : list A) (i : nat)
    (d : A) :
  (i < length a)%nat ->
  nth i (fill mask v a) d = if nth i mask false then v else nth i a d.
Proof.
  revert a i. induction mask as [|b m IH]; intros [|x a] [|i]; simpl; intros;
    try lia; auto.
  apply IH; lia.
Qed.

Lemma length_put {A : Type} (mask : list bool) (vals a : list A) :
  length (put mask vals a) = length a.
Proof.
  revert vals a.
  induction mask as [|b m IH]; intros vals a; [reflexivity|].
  destruct b, a as [|x a], vals as [|v vs]; simpl; auto.
Qed.

(** The entry an assignment through a mask leaves at position [i]: the
    value of rank [count_true (firstn i mask)] among the assigned ones where
    the mask holds, the old entry elsewhere. *)
Lemma nth_put {A : Type} (mask : list bool) (vals a : list A) (i : nat)
    (d : A) :
  (i < length a)%nat ->
  nth i (put mask vals a) d =
  if nth i mask false
  then nth (count_true (firstn i mask)) vals (nth i a d)
  else nth i a d.
Proof.
  revert vals a i.
  induction mask as [|b m IH]; intros vals [|x a] i Hi; simpl in *;
    try lia.
  - destruct i; reflexivity.
  - destruct b.
    + destruct vals as [|v vs]; destruct i as [|i]; simpl; auto.
      * rewrite IH by lia. destruct (nth i m false); auto.
        destruct (count_true (firstn i m)); reflexivity.
      * rewrite IH by lia. reflexivity.
    + destruct i as [|i]; simpl; auto. apply IH; lia.
Qed.

Lemma length_select {A : Type} (mask : list bool) (a : list A) :
  length mask = length a -> length (select mask a) = count_true mask.
Proof.
  revert a. induction mask as [|b m IH]; intros [|x a]; simpl; intros H;
    try discriminate; auto.
  destruct b; simpl; auto.
Qed.

Lemma nth_select_rank {A : Type} (mask : list bool) (a : list A) (i : nat)
    (d : A) :
  (i < length a)%nat -> nth i mask false = true ->
  nth (count_true (firstn i mask)) (select mask a) d = nth i a d.
Proof.
  revert a i. induction mask as [|b m IH]; intros [|x a] [|i]; simpl;
    intros Hi Hm; try lia; try discriminate.
  - subst b. reflexivity.
  - destruct b; simpl; apply IH; auto; lia.
Qed.

Lemma rank_lt_count (mask : list bool) (i : nat) :
  nth i mask false = true ->
  (count_true (firstn i mask) < count_true mask)%nat.
Proof.
  revert i. induction mask as [|b m IH]; intros [|i]; simpl; intros H;
    try discriminate.
  - subst b. lia.
  - specialize (IH i H). destruct b; lia.
Qed.

Lemma count_true_zero (mask : list bool) (i : nat) :
  count_true mask = 0%nat -> nth i mask false = false.
Proof.
  revert i. induction mask as [|b m IH]; intros [|i]; simpl; intros H; auto.
  - destruct b; auto. discriminate.
  - apply IH. destruct b; [discriminate | assumption].
Qed.

Lemma nth_draws (f : nat -> R) (k i : nat) (d : R) :
  (i < k)%nat -> nth i (draws f k) d = f i.
Proof.
  intros H. unfold draws.
  rewrite (nth_indep _ d (f 0%nat)) by (rewrite length_map, length_seq; lia).
  rewrite (map_nth f (seq 0 k) 0%nat i). rewrite seq_nth by lia. reflexivity.
Qed.

Lemma length_draws (f : nat -> R) (k : nat) : length (draws f k) = k.
Proof. unfold draws. now rewrite length_map, length_seq. Qed.

Lemma nth_map_seq {A : Type} (g : nat -> A) (k i : nat) (d : A) :
  (i < k)%nat -> nth i (map g (seq 0 k)) d = g i.
Proof.
  intros H.
  rewrite (nth_indep _ d (g 0%nat)) by (rewrite length_map, length_seq; lia).
  rewrite (map_nth g (seq 0 k) 0%nat i). rewrite seq_nth by lia. reflexivity.
Qed.

Lemma nth_map_in {A B : Type} (g : A -> B) (l : list A) (i : nat) (da : A)
    (db : B) :
  (i < length l)%nat -> nth i (map g l) db = g (nth i l da).
Proof.
  intros H. rewrite (nth_indep _ db (g da)) by (rewrite length_map; lia).
  apply map_nth.
Qed.

Lemma length_upd {A : Type} (i : nat) (v : A) (a : list A) :
  length (upd i v a) = length a.
Proof.
  revert i. induction a as [|x a IH]; intros [|i]; simpl; auto.
Qed.

Lemma nth_upd {A : Type} (i j : nat) (v : A) (a : list A) (d : A) :
  nth j (upd i v a) d =
  if ((j =? i) && (i <? length a))%nat then v else nth j a d.
Proof.
  revert i j. induction a as [|x a IH]; intros i j; simpl.
  - destruct i, j; simpl; auto; now rewrite andb_false_r.
  - destruct i, j; simpl; auto.
Qed.

Lemma nth_upd_same {A : Type} (i : nat) (v : A) (a : list A) (d : A) :
  (i < length a)%nat -> nth i (upd i v a) d = v.
Proof.
  intros H. rewrite nth_upd, Nat.eqb_refl.
  destruct (Nat.ltb_spec i (length a)); [reflexivity | lia].
Qed.

Lemma nth_upd_other {A : Type} (i j : nat) (v : A) (a : list A) (d : A) :
  j <> i -> nth j (upd i v a) d = nth j a d.
Proof.
  intros H. rewrite nth_upd.
  destruct (Nat.eqb_spec j i); [contradiction | reflexivity].
Qed.

Lemma nth_app_new {A : Type} (a : list A) (x d : A) :
  nth (length a) (a ++ [x]) d = x.
Proof. rewrite app_nth2, Nat.sub_diag by lia. reflexivity. Qed.

Lemma nth_app_old {A : Type} (a : list A) (x d : A) (i : nat) :
  (i < length a)%nat -> nth i (a ++ [x]) d = nth i a d.
Proof. intros H. now rewrite app_nth1. Qed.

End ArrayFacts.

(** ** Reasoning about method bodies *)

Section MonadFacts.

Context {A B : Type}.

Lemma bind_ret_run (m : M A) (k : A -> M B) (s s' : Sim) (a : A) :
  m s = (Ret a, s') -> bind m k s = k a s'.
Proof. intros H. unfold bind. now rewrite H. Qed.

Lemma bind_raise_run (m : M A) (k : A -> M B) (s s' : Sim) (e : string) :
  m s = (Raise e, s') -> bind m k s = (Raise e, s').
Proof. intros H. unfold bind. now rewrite H. Qed.

Lemma keeps_bind (I : Sim -> Prop) (m : M A) (k : A -> M B) :
  keeps I m -> (forall a, keeps I (k a)) -> keeps I (bind m k).
Proof.
  intros Hm Hk s Hs. unfold bind. specialize (Hm s Hs).
  destruct (m s) as [[a|e] s']; simpl in *.
  - apply Hk, Hm.
  - exact Hm.
Qed.

Lemma keeps_ret (I : Sim -> Prop) (a : A) : keeps I (ret a).
Proof. intros s Hs. exact Hs. Qed.

Lemma keeps_raise (I : Sim -> Prop) (e : string) : keeps I (@raise A e).
Proof. intros s Hs. exact Hs. Qed.

Lemma keeps_gets (I : Sim -> Prop) (f : Sim -> A) : keeps I (gets f).
Proof. intros s Hs. exact Hs. Qed.

Lemma keeps_attr (I : Sim -> Prop) (f : Sim -> option A) : keeps I (attr f).
Proof. intros s Hs. unfold attr. destruct (f s); exact Hs. Qed.

Lemma keeps_if (I : Sim -> Prop) (b : bool) (m1 m2 : M A) :
  keeps I m1 -> keeps I m2 -> keeps I (if b then m1 else m2).
Proof. destruct b; auto. Qed.

End MonadFacts.

Lemma keeps_modify (I : Sim -> Prop) (f : Sim -> Sim) :
  (forall s, I s -> I (f s)) -> keeps I (modify f).
Proof. intros H s Hs. apply H, Hs. Qed.

Lemma keeps_get_config {A : Type} (I : Sim -> Prop) (f : Config -> A) :
  keeps I (get_config f).
Proof. intros s Hs. exact Hs. Qed.

Lemma keeps_get_elements {A : Type} (I : Sim -> Prop) (f : Elements -> A) :
  keeps I (get_elements f).
Proof. intros s Hs. exact Hs. Qed.

Lemma keeps_load1 (I : Sim -> Prop) (r : ref) : keeps I (load1 r).
Proof. intros s Hs. exact Hs. Qed.

Lemma keeps_load2 (I : Sim -> Prop) (r : ref) : keeps I (load2 r).
Proof. intros s Hs. exact Hs. Qed.

Lemma keeps_modify_elements (I : Sim -> Prop) (f : Elements -> Elements) :
  (forall s, I s -> I (set_elements (f (elements s)) s)) ->
  keeps I (modify_elements f).
Proof. intros H s Hs. apply H, Hs. Qed.

(** Steps through a method body, leaving the mutations as goals. *)
Ltac keeps_step :=
  lazymatch goal with
  | |- keeps _ (bind _ _) => apply keeps_bind; [|intros ?]
  | |- keeps _ (ret _) => apply keeps_ret
  | |- keeps _ (raise _) => apply keeps_raise
  | |- keeps _ (gets _) => apply keeps_gets
  | |- keeps _ (attr _) => apply keeps_attr
  | |- keeps _ (get_config _) => apply keeps_get_config
  | |- keeps _ (get_elements _) => apply keeps_get_elements
  | |- keeps _ (load1 _) => apply keeps_load1
  | |- keeps _ (load2 _) => apply keeps_load2
  | |- keeps _ (if _ then _ else _) => apply keeps_if
  | |- keeps _ (let _ := _ in _) => cbv zeta
  end.

Ltac keeps_auto := repeat keeps_step.

(** ** The transformation probabilities (lines 430-431) *)

Section Probability.

Import Np.

Variable deltat : Z.

(** The probability of one transfer process over a timestep. *)
Let prob (x : R) : R := 1 - exp (- x * IZR deltat).

Lemma prob_zero : prob 0 = 0.
Proof. unfold prob. replace (- 0 * IZR deltat) with 0 by ring. rewrite exp_0. ring. Qed.

Lemma prob_lt_1 (x : R) : prob x < 1.
Proof. unfold prob. pose proof (exp_pos (- x * IZR deltat)). lra. Qed.

Lemma prob_nonneg (x : R) : (0 < deltat)%Z -> 0 <= x -> 0 <= prob x.
Proof.
  intros Hdt Hx. unfold prob.
  apply IZR_lt in Hdt.
  destruct (Req_dec_T x 0) as [->|Hne].
  - replace (- 0 * IZR deltat) with 0 by ring. rewrite exp_0. lra.
  - assert (Hneg : - x * IZR deltat < 0) by nra.
    apply exp_increasing in Hneg. rewrite exp_0 in Hneg. lra.
Qed.

Lemma prob_pos (x : R) : (0 < deltat)%Z -> 0 < x -> 0 < prob x.
Proof.
  intros Hdt Hx. unfold prob. apply IZR_lt in Hdt.
  assert (Hneg : - x * IZR deltat < 0) by nra.
  apply exp_increasing in Hneg. rewrite exp_0 in Hneg. lra.
Qed.

(** A strictly positive probability comes from a non-zero rate. *)
Lemma prob_pos_rate (x : R) : 0 < prob x -> x <> 0.
Proof. intros H ->. rewrite prob_zero in H. lra. Qed.

Lemma sum_prob_nonneg (row : list R) :
  (0 < deltat)%Z -> nonneg_row row -> 0 <= sum (map prob row).
Proof.
  intros Hdt H. induction H as [|x row Hx _ IH]; simpl.
  - lra.
  - pose proof (prob_nonneg x Hdt Hx). lra.
Qed.

Lemma sum_prob_le_length (row : list R) :
  sum (map prob row) <= INR (length row).
Proof.
  induction row as [|x row IH].
  - simpl. lra.
  - change (length (x :: row)) with (S (length row)). rewrite S_INR.
    simpl. pose proof (prob_lt_1 x). lra.
Qed.

Lemma sum_prob_lt_length (row : list R) :
  row <> [] -> sum (map prob row) < INR (length row).
Proof.
  destruct row as [|x row]; [congruence|]. intros _.
  change (length (x :: row)) with (S (length row)). rewrite S_INR.
  simpl. pose proof (prob_lt_1 x). pose proof (sum_prob_le_length row). lra.
Qed.

Lemma sum_prob_zero (row : list R) :
  Forall (fun x => x = 0) row -> sum (map prob row) = 0.
Proof.
  intros H. induction H as [|x row Hx _ IH]; simpl.
  - reflexivity.
  - subst x. rewrite prob_zero, IH. ring.
Qed.

(** The row sums [psum] of the code, one particle at a time. *)
Lemma nth_psum (rates : list (list R)) (i : nat) :
  (i < length rates)%nat ->
  nth i (map sum (transformation_probability deltat rates)) 0 =
  sum (map prob (nth i rates [])).
Proof.
  intros Hi. unfold transformation_probability.
  rewrite (nth_map_in sum _ i []) by (rewrite length_map; exact Hi).
  rewrite (nth_map_in _ rates i []) by exact Hi. reflexivity.
Qed.

Lemma nth_transformation_probability (rates : list (list R)) (i : nat) :
  (i < length rates)%nat ->
  nth i (transformation_probability deltat rates) [] =
  map prob (nth i rates []).
Proof.
  intros Hi. unfold transformation_probability.
  rewrite (nth_map_in _ rates i []) by exact Hi. reflexivity.
Qed.

End Probability.

(** Running a method body one statement at a time. *)

Lemma run_gets {A B : Type} (f : Sim -> A) (k : A -> M B) (s : Sim) :
  bind (gets f) k s = k (f s) s.
Proof. reflexivity. Qed.

Lemma run_get_config {A B : Type} (f : Config -> A) (k : A -> M B) (s : Sim) :
  bind (get_config f) k s = k (f (config s)) s.
Proof. reflexivity. Qed.

Lemma run_get_elements {A B : Type} (f : Elements -> A) (k : A -> M B)
    (s : Sim) :
  bind (get_elements f) k s = k (f (elements s)) s.
Proof. reflexivity. Qed.

Lemma run_load1 {B : Type} (r : ref) (k : list R -> M B) (s : Sim) :
  bind (load1 r) k s = k (nth r (arrays1 s) []) s.
Proof. reflexivity. Qed.

Lemma run_load2 {B : Type} (r : ref) (k : list (list R) -> M B) (s : Sim) :
  bind (load2 r) k s = k (nth r (arrays2 s) []) s.
Proof. reflexivity. Qed.

Lemma run_modify {B : Type} (f : Sim -> Sim) (k : unit -> M B) (s : Sim) :
  bind (modify f) k s = k tt (f s).
Proof. reflexivity. Qed.

Lemma run_modify_elements {B : Type} (f : Elements -> Elements)
    (k : unit -> M B) (s : Sim) :
  bind (modify_elements f) k s = k tt (set_elements (f (elements s)) s).
Proof. reflexivity. Qed.

Lemma run_ret {A B : Type} (a : A) (k : A -> M B) (s : Sim) :
  bind (ret a) k s = k a s.
Proof. reflexivity. Qed.

Lemma run_raise {A B : Type} (e : string) (k : A -> M B) (s : Sim) :
  bind (raise e) k s = (Raise e, s).
Proof. reflexivity. Qed.

Lemma run_attr {A B : Type} (f : Sim -> option A) (k : A -> M B) (s : Sim)
    (v : A) :
  f s = Some v -> bind (attr f) k s = k v s.
Proof. intros H. unfold bind, attr. now rewrite H. Qed.

Lemma run_attr_none {A B : Type} (f : Sim -> option A) (k : A -> M B)
    (s : Sim) :
  f s = None -> bind (attr f) k s = (Raise "AttributeError", s).
Proof. intros H. unfold bind, attr. now rewrite H. Qed.

Lemma run_bind_assoc {A B C : Type} (m : M A) (k : A -> M B) (h : B -> M C)
    (s : Sim) :
  bind (bind m k) h s = bind m (fun a => bind (k a) h) s.
Proof. unfold bind. destruct (m s) as [[a|e] s']; reflexivity. Qed.

Lemma run_new1 {B : Type} (a : list R) (k : ref -> M B) (s : Sim) :
  bind (new1 a) k s =
  k (length (arrays1 s)) (set_arrays1 (arrays1 s ++ [a]) s).
Proof. reflexivity. Qed.

(** A call that returns went through each of its statements. *)
Lemma bind_returns {A B : Type} (m : M A) (k : A -> M B) (s s' : Sim)
    (b : B) :
  bind m k s = (Ret b, s') ->
  exists a s1, m s = (Ret a, s1) /\ k a s1 = (Ret b, s').
Proof.
  unfold bind. destruct (m s) as [[a|e] s1]; intros H.
  - exists a, s1. auto.
  - discriminate.
Qed.

(** Projections of an updated object. *)
Ltac st_simpl :=
  cbn [config time_step_seconds name_species nspecies transfer_rates
       num_lmm num_col num_prev num_psrev num_pirrev num_srev num_ssrev
       num_sirrev elements environment arrays1 arrays2
       specie z diameter density lon lat transfer_rates1D terminal_velocity
       with_config set_name_species set_nspecies set_transfer_rates
       set_num_lmm set_num_col set_num_prev set_num_psrev set_num_srev
       set_num_ssrev set_elements set_arrays1 set_arrays2
       set_specie set_z set_diameter set_lon set_lat set_transfer_rates1D
       set_terminal_velocity].

Ltac st_simpl_in H :=
  cbn [config time_step_seconds name_species nspecies transfer_rates
       num_lmm num_col num_prev num_psrev num_pirrev num_srev num_ssrev
       num_sirrev elements environment arrays1 arrays2
       specie z diameter density lon lat transfer_rates1D terminal_velocity
       with_config set_name_species set_nspecies set_transfer_rates
       set_num_lmm set_num_col set_num_prev set_num_psrev set_num_srev
       set_num_ssrev set_elements set_arrays1 set_arrays2
       set_specie set_z set_diameter set_lon set_lat set_transfer_rates1D
       set_terminal_velocity] in H.

Ltac run_step :=
  first
    [ rewrite run_gets
    | rewrite run_get_config
    | rewrite run_get_elements
    | rewrite run_load1
    | rewrite run_load2
    | rewrite run_modify
    | rewrite run_modify_elements
    | rewrite run_ret
    | rewrite run_raise ];
  cbv beta zeta.

(** ** What the transition effect handlers leave alone *)

Section Handlers.

Variable I : Sim -> Prop.
Hypothesis I_z : ignores_z I.
Hypothesis I_diameter : ignores_diameter I.

Lemma keeps_diameter_fill (mask : list bool) (v : R) :
  keeps I (diameter_fill mask v).
Proof. intros s Hs. apply I_diameter, Hs. Qed.

Lemma keeps_diameter_add (mask : list bool) (noise : list R) :
  keeps I (diameter_add mask noise).
Proof. intros s Hs. apply I_diameter, Hs. Qed.

Lemma keeps_z_put (mask : list bool) (vals : list R) :
  keeps I (z_put mask vals).
Proof. intros s Hs. apply I_z, Hs. Qed.

Lemma keeps_z_add (mask : list bool) (noise : list R) :
  keeps I (z_add mask noise).
Proof. intros s Hs. apply I_z, Hs. Qed.

Lemma keeps_update_radionuclide_diameter (rnd : Random)
    (sp_in sp_out : list nat) :
  keeps I (update_radionuclide_diameter rnd sp_in sp_out).
Proof.
  unfold update_radionuclide_diameter.
  keeps_auto; auto using keeps_diameter_fill, keeps_diameter_add.
Qed.

Lemma keeps_sorption_to_sediments (sp_in sp_out : list nat) :
  keeps I (sorption_to_sediments sp_in sp_out).
Proof.
  unfold sorption_to_sediments. keeps_auto; auto using keeps_z_put.
Qed.

Lemma keeps_desorption_from_sediments (rnd : Random)
    (sp_in sp_out : list nat) :
  keeps I (desorption_from_sediments rnd sp_in sp_out).
Proof.
  unfold desorption_from_sediments.
  keeps_auto; auto using keeps_z_put, keeps_z_add.
Qed.

(** The three handlers, in the order [update_speciation] calls them. *)
Lemma keeps_handlers (rnd : Random) (sp_in sp_out : list nat) :
  keeps I (update_radionuclide_diameter rnd sp_in sp_out ;;
           sorption_to_sediments sp_in sp_out ;;
           desorption_from_sediments rnd sp_in sp_out).
Proof.
  keeps_auto; auto using keeps_update_radionuclide_diameter,
    keeps_sorption_to_sediments, keeps_desorption_from_sediments.
Qed.

End Handlers.

(** ** The stochastic speciation step *)

Section Speciation.

Import Np.

Variable rnd : Random.
Variable st : Sim.
Variable r : ref.

Let deltat : Z := time_step_seconds st.
Let rates : list (list R) := nth r (arrays2 st) [].
Let n : nat := length (specie (elements st)).
Let psum : list R := map sum (transformation_probability deltat rates).

(** The mask [phaseshift] of the step. *)
Let phaseshift : list bool :=
  fill (map2 Rltb (draws (ran1 rnd) n) psum) true (repeat false n).

Hypothesis Hattr : transfer_rates1D (elements st) = Some r.
Hypothesis Hshape : length rates = n.

Lemma nth_phaseshift (i : nat) :
  (i < n)%nat ->
  nth i phaseshift false = Rltb (ran1 rnd i) (nth i psum 0).
Proof.
  intros Hi. unfold phaseshift.
  assert (Hps : length psum = n).
  { unfold psum, transformation_probability. now rewrite !length_map. }
  rewrite nth_fill by (rewrite repeat_length; exact Hi).
  rewrite (nth_map2 Rltb _ _ i 0 0 false)
    by (rewrite ?length_draws, ?Hps; exact Hi).
  rewrite nth_draws by exact Hi.
  rewrite nth_repeat.
  destruct (Rltb (ran1 rnd i) (nth i psum 0)); reflexivity.
Qed.

(** The compartment of particle [i] after [update_speciation], whichever
    way the call ends: the destination found for it when its draw [ran1] is
    below its row sum of probabilities, its old compartment otherwise. *)
Lemma update_speciation_specie (i : nat) :
  (i < n)%nat ->
  nth i (specie (elements (final (update_speciation rnd st)))) 0%nat =
  if Rlt_dec (ran1 rnd i) (nth i psum 0)
  then destination (nth i (transformation_probability deltat rates) [])
         (nth i psum 0)
         (ran4 rnd (count_true (firstn i phaseshift)))
  else nth i (specie (elements st)) 0%nat.
Proof.
  intros Hi.
  pose proof (nth_phaseshift i Hi) as Hph.
  assert (Hps : length psum = n).
  { unfold psum, transformation_probability. now rewrite !length_map. }
  assert (Hlp : length phaseshift = n).
  { unfold phaseshift. now rewrite length_fill, repeat_length. }
  unfold update_speciation.
  do 3 run_step. rewrite (run_attr _ _ _ r) by exact Hattr. run_step.
  fold deltat rates n. fold psum. fold phaseshift.
  destruct (Nat.eqb_spec (count_true phaseshift) 0) as [Hz|Hnz].
  - unfold ret, final; cbn [snd].
    pose proof (count_true_zero phaseshift i Hz) as Hf.
    rewrite Hph in Hf. apply Rltb_false in Hf.
    destruct (Rlt_dec (ran1 rnd i) (nth i psum 0)); [lra | reflexivity].
  - run_step.
    set (sp' := put phaseshift _ (specie (elements st))).
    set (s1 := set_elements (set_specie sp' (elements st)) st).
    rewrite (keeps_handlers (fun s => specie (elements s) = sp'));
      [|intros s v H; exact H | intros s v H; exact H | reflexivity].
    unfold sp'.
    rewrite nth_put by exact Hi. rewrite Hph.
    unfold Rltb.
    destruct (Rlt_dec (ran1 rnd i) (nth i psum 0)) as [Hlt|Hge];
      [|reflexivity].
    assert (Hm : nth i phaseshift false = true).
    { rewrite Hph. apply Rltb_true, Hlt. }
    pose proof (rank_lt_count phaseshift i Hm) as Hrank.
    rewrite nth_map_seq by exact Hrank.
    rewrite nth_draws by exact Hrank.
    rewrite nth_select_rank;
      [|unfold transformation_probability; rewrite length_map, Hshape;
        exact Hi | exact Hm].
    rewrite nth_select_rank; [|rewrite Hps; exact Hi | exact Hm].
    reflexivity.
Qed.

End Speciation.

(** ** Choosing the destination (line 448) *)

Section Destination.

Import Np.

(** With a draw above zero the search stops at an entry of positive
    weight, inside the row. *)
Lemma searchsorted_cumsum_positive (ps v : R) (l : list R) (acc : R) :
  0 < ps -> acc < v -> v <= acc + sum l / ps ->
  let j := searchsorted (cumsum_from acc (map (fun x => x / ps) l)) v in
  (j < length l)%nat /\ 0 < nth j l 0.
Proof.
  intros Hps. revert acc.
  induction l as [|x l IH]; intros acc Hlo Hhi; simpl in *.
  - unfold Rdiv in Hhi. rewrite Rmult_0_l in Hhi. lra.
  - destruct (Rlt_dec (acc + x / ps) v) as [Hlt|Hge].
    + destruct (IH (acc + x / ps) Hlt) as [Hj Hn].
      { unfold Rdiv in *. lra. }
      split; [lia | exact Hn].
    + split; [lia|].
      assert (Hx : 0 < x / ps) by lra.
      unfold Rdiv in Hx.
      pose proof (Rinv_0_lt_compat ps Hps).
      nra.
Qed.

(** What the destination choice does guarantee: for a draw [v] with
    [0 < v <= 1] the chosen index lies in the row and its rate is not
    zero. *)
Lemma destination_nonzero_rate (deltat : Z) (row : list R) (v : R) :
  let p_ii := nth 0 (transformation_probability deltat [row]) [] in
  0 < sum p_ii -> 0 < v -> v <= 1 ->
  (destination p_ii (sum p_ii) v < length row)%nat /\
  nth (destination p_ii (sum p_ii) v) row 0 <> 0.
Proof.
  cbn [transformation_probability map nth]. intros Hps Hv0 Hv1.
  set (p := map (fun x => 1 - exp (- x * IZR deltat)) row) in *.
  destruct (searchsorted_cumsum_positive (sum p) v p 0 Hps Hv0) as [Hj Hn].
  { unfold Rdiv. rewrite Rinv_r by lra. lra. }
  unfold destination, cumsum.
  set (j := searchsorted _ v) in *.
  unfold p in Hj. rewrite length_map in Hj. split; [exact Hj|].
  unfold p in Hn.
  rewrite (nth_map_in _ row j 0) in Hn by exact Hj.
  apply (prob_pos_rate deltat), Hn.
Qed.

(** With the draw [v = 0] the search stops at index 0, whatever its
    weight. *)
Lemma destination_zero_draw (p_ii : list R) (psum_ii : R) :
  nth 0 p_ii 0 = 0 -> destination p_ii psum_ii 0 = 0%nat.
Proof.
  unfold destination, cumsum. destruct p_ii as [|x t]; simpl.
  - reflexivity.
  - intros ->. destruct (Rlt_dec (0 + 0 / psum_ii) 0) as [H|H].
    + unfold Rdiv in H. rewrite Rmult_0_l in H. lra.
    + reflexivity.
Qed.

End Destination.

(** ** The decision to transform and the choice of destination *)

Section SpeciationClaims.

Import Np.

(** Bounds on [exp (- 1)], for the examples with rate 1 and timestep 1. *)
Lemma exp_minus_1_bounds : 1 / 3 <= exp (Ropp 1) < 1 / 2.
Proof.
  rewrite exp_Ropp.
  pose proof exp_le_3 as H3.
  assert (H2 : 2 < exp 1) by (pose proof (exp_ineq1 1); lra).
  split.
  - unfold Rdiv. rewrite Rmult_1_l. apply Rinv_le_contravar; lra.
  - unfold Rdiv. rewrite Rmult_1_l. apply Rinv_lt_contravar; lra.
Qed.

Lemma exp_minus_2 : exp (Ropp 2) = exp (Ropp 1) * exp (Ropp 1).
Proof. rewrite <- exp_plus. f_equal. ring. Qed.

Lemma exp_arg (x y : R) : x = y -> exp x = exp y.
Proof. intros ->. reflexivity. Qed.

(** The row sum of probabilities of the row [0; 1; 0; 1; 0] over one
    second. *)
Lemma psum_fast_row :
  nth 0 (map sum (transformation_probability 1 [[0; 1; 0; 1; 0]])) 0 =
  2 * (1 - exp (Ropp 1)).
Proof.
  cbn [transformation_probability map nth sum].
  rewrite !(exp_arg (- 0 * 1) 0) by ring.
  rewrite !(exp_arg (- (1) * 1) (Ropp 1)) by ring.
  rewrite exp_0. ring.
Qed.

(** C1 (amended): the total probability of transformation of a particle is
    the sum over the destinations [j] of [1 - exp (- rate_j * deltat)]; the
    particle gets the destination chosen with one of the second draws when
    its first draw [u] is below that total, and keeps its compartment
    otherwise. *)
Theorem speciation_transition_rule (rnd : Random) (st : Sim) (r : ref)
    (i : nat) :
  transfer_rates1D (elements st) = Some r ->
  length (nth r (arrays2 st) []) = length (specie (elements st)) ->
  (i < length (specie (elements st)))%nat ->
  let deltat := time_step_seconds st in
  let rates := nth r (arrays2 st) [] in
  let p_total := nth i (map sum (transformation_probability deltat rates)) 0 in
  let p_ii := map (fun x => 1 - exp (- x * IZR deltat)) (nth i rates []) in
  let after := specie (elements (final (update_speciation rnd st))) in
  p_total = sum p_ii /\
  (ran1 rnd i < p_total ->
   exists k, nth i after 0%nat = destination p_ii p_total (ran4 rnd k)) /\
  (~ ran1 rnd i < p_total ->
   nth i after 0%nat = nth i (specie (elements st)) 0%nat).
Proof.
  intros Hattr Hshape Hi deltat rates p_total p_ii after.
  assert (Hi' : (i < length rates)%nat) by (unfold rates; lia).
  pose proof (update_speciation_specie rnd st r Hattr Hshape i Hi) as Hsp.
  fold deltat rates in Hsp. fold p_total in Hsp.
  rewrite (nth_transformation_probability deltat rates i Hi') in Hsp.
  fold p_ii in Hsp. fold after in Hsp.
  split; [apply nth_psum, Hi'|].
  destruct (Rlt_dec (ran1 rnd i) p_total) as [Hlt|Hge]; split; intros H;
    try contradiction.
  - eexists. exact Hsp.
  - exact Hsp.
Qed.

Lemma speciation_transition_rule_witness :
  let st := one_particle example_config 3600 0 [0; 1e-5; 0] in
  let rnd := constant_draws 0.5 0.5 in
  let p_total :=
    nth 0 (map sum (transformation_probability 3600 [[0; 1e-5; 0]])) 0 in
  let p_ii := map (fun x => 1 - exp (- x * IZR 3600)) [0; 1e-5; 0] in
  let after := specie (elements (final (update_speciation rnd st))) in
  p_total = sum p_ii /\
  (ran1 rnd 0%nat < p_total ->
   exists k, nth 0 after 0%nat = destination p_ii p_total (ran4 rnd k)) /\
  (~ ran1 rnd 0%nat < p_total ->
   nth 0 after 0%nat = nth 0 (specie (elements st)) 0%nat).
Proof.
  intros st rnd p_total p_ii after.
  apply (speciation_transition_rule rnd st 1%nat 0%nat).
  - reflexivity.
  - reflexivity.
  - simpl. lia.
Defined.

(** C1 (as stated) fails: for the rate row [0; 1; 0; 1; 0] (a dissolved
    particle of a 'Bokna_137Cs' run with rates of 1 per second towards
    particle-reversible and sediment-reversible) and a timestep of one
    second, the total used by the code is not
    [1 - exp (- (0 + 1 + 0 + 1 + 0) * 1)], and with the draw [u = 0.9] the
    particle is transformed (it moves from compartment 0 to compartment 1)
    although [u] is not below [1 - exp (- (0 + 1 + 0 + 1 + 0) * 1)]. *)
Lemma speciation_total_counterexample :
  let st := bokna_particle [0; 1; 0; 1; 0] in
  let rnd := constant_draws 0.9 0.4 in
  nth 0 (map sum (transformation_probability 1 [[0; 1; 0; 1; 0]])) 0
    <> 1 - exp (- (0 + 1 + 0 + 1 + 0) * 1) /\
  nth 0 (specie (elements st)) 0%nat = 0%nat /\
  nth 0 (specie (elements (final (update_speciation rnd st)))) 0%nat = 1%nat /\
  ~ (ran1 rnd 0%nat < 1 - exp (- (0 + 1 + 0 + 1 + 0) * 1)).
Proof.
  intros st rnd.
  pose proof exp_minus_1_bounds as [Hlo Hhi].
  pose proof exp_minus_2 as H2.
  rewrite (exp_arg (- (0 + 1 + 0 + 1 + 0) * 1) (Ropp 2)) by ring.
  split; [|split; [reflexivity|split]].
  - rewrite psum_fast_row. nra.
  - rewrite (update_speciation_specie rnd st 1%nat eq_refl eq_refl 0%nat)
      by (simpl; lia).
    change (time_step_seconds st) with 1%Z.
    change (nth 1 (arrays2 st) []) with [[0; 1; 0; 1; 0]].
    rewrite psum_fast_row.
    change (ran1 rnd 0%nat) with 0.9.
    destruct (Rlt_dec 0.9 (2 * (1 - exp (Ropp 1)))) as [_|Hn]; [|lra].
    match goal with |- context [ran4 rnd ?k] =>
      change (ran4 rnd k) with 0.4 end.
    cbn [transformation_probability map nth].
    unfold destination, cumsum. cbn [map cumsum_from searchsorted].
    rewrite !(exp_arg (- 0 * 1) 0) by ring.
    rewrite !(exp_arg (- (1) * 1) (Ropp 1)) by ring.
    rewrite exp_0.
    set (a := exp (Ropp 1)) in *.
    assert (Hhalf : (1 - a) / (2 * (1 - a)) = 1 / 2) by (field; lra).
    replace ((1 - 1) / (2 * (1 - a))) with 0 by (field; lra).
    destruct (Rlt_dec (0 + 0) 0.4) as [_|Hn]; [|lra].
    destruct (Rlt_dec (0 + 0 + (1 - a) / (2 * (1 - a))) 0.4) as [Hc|_].
    + rewrite Hhalf in Hc. lra.
    + reflexivity.
  - change (ran1 rnd 0%nat) with 0.9. nra.
Qed.

(** C2 (amended): for a row of non-negative rates and a positive timestep
    the total probability of transformation lies between 0 and the number
    of compartments (strictly below it when there is a compartment); when
    every rate of the row is zero the total is 0 and, the first draw being
    non-negative, the particle keeps its compartment. *)
Theorem speciation_total_probability (rnd : Random) (st : Sim) (r : ref)
    (i : nat) :
  transfer_rates1D (elements st) = Some r ->
  length (nth r (arrays2 st) []) = length (specie (elements st)) ->
  (i < length (specie (elements st)))%nat ->
  let deltat := time_step_seconds st in
  let rates := nth r (arrays2 st) [] in
  let row := nth i rates [] in
  let p_total := nth i (map sum (transformation_probability deltat rates)) 0 in
  nonneg_row row -> (0 < deltat)%Z -> 0 <= ran1 rnd i ->
  0 <= p_total /\
  p_total <= INR (length row) /\
  (row <> [] -> p_total < INR (length row)) /\
  (Forall (fun x => x = 0) row ->
   p_total = 0 /\
   nth i (specie (elements (final (update_speciation rnd st)))) 0%nat =
   nth i (specie (elements st)) 0%nat).
Proof.
  intros Hattr Hshape Hi deltat rates row p_total Hrow Hdt Hu.
  assert (Hi' : (i < length rates)%nat) by (unfold rates; lia).
  assert (Hp : p_total = sum (map (fun x => 1 - exp (- x * IZR deltat)) row))
    by (apply nth_psum, Hi').
  rewrite Hp.
  split; [apply sum_prob_nonneg; assumption|].
  split; [apply sum_prob_le_length|].
  split; [apply sum_prob_lt_length|].
  intros Hzero. pose proof (sum_prob_zero deltat row Hzero) as H0.
  split; [exact H0|].
  rewrite (update_speciation_specie rnd st r Hattr Hshape i Hi).
  fold deltat rates. fold p_total. rewrite Hp, H0.
  destruct (Rlt_dec (ran1 rnd i) 0); [lra | reflexivity].
Qed.

Lemma speciation_total_probability_witness :
  let st := one_particle example_config 3600 2 [0; 0; 0] in
  let rnd := constant_draws 0.5 0.5 in
  nth 0 (map sum (transformation_probability 3600 [[0; 0; 0]])) 0 = 0 /\
  nth 0 (specie (elements (final (update_speciation rnd st)))) 0%nat = 2%nat.
Proof.
  intros st rnd.
  refine (proj2 (proj2 (proj2
            (speciation_total_probability rnd st 1%nat 0%nat _ _ _ _ _ _)))
            _).
  - reflexivity.
  - reflexivity.
  - simpl. lia.
  - simpl. repeat constructor; lra.
  - simpl. lia.
  - simpl. lra.
  - simpl. repeat constructor.
Defined.

(** C2 (as stated) fails: the row [0; 1; 0; 1; 0] is non-negative and the
    timestep of one second is positive, yet the total probability used by
    the code exceeds 1. *)
Lemma speciation_total_above_one :
  let st := bokna_particle [0; 1; 0; 1; 0] in
  rates1D_of st = Some [[0; 1; 0; 1; 0]] /\
  nonneg_row [0; 1; 0; 1; 0] /\
  (0 < time_step_seconds st)%Z /\
  ~ (nth 0 (map sum (transformation_probability (time_step_seconds st)
                       [[0; 1; 0; 1; 0]])) 0 < 1).
Proof.
  intros st. split; [reflexivity|]. split; [|split].
  - repeat constructor; lra.
  - simpl. lia.
  - change (time_step_seconds st) with 1%Z.
    rewrite psum_fast_row. pose proof exp_minus_1_bounds. lra.
Qed.

(** For every row whose first rate is zero (the row of a particle in
    compartment 0, whose diagonal entry is zero) the draw [v = 0] makes the
    search return index 0: a compartment of zero rate is selected. *)
Lemma destination_selects_zero_rate (deltat : Z) (rest : list R)
    (psum_ii : R) :
  let row := 0 :: rest in
  let p_ii := nth 0 (transformation_probability deltat [row]) [] in
  destination p_ii psum_ii 0 = 0%nat /\
  nth (destination p_ii psum_ii 0) row 0 = 0.
Proof.
  cbn zeta. cbn [transformation_probability map nth].
  rewrite destination_zero_draw.
  - split; reflexivity.
  - cbn [nth]. apply prob_zero.
Qed.

(** The matrix that [prepare_run] builds for [slow_dummy_config]. *)
Lemma slow_dummy_rates :
  ended (prepare_run (fresh_sim slow_dummy_config 3600)) = Ret tt /\
  matrix_of (final (prepare_run (fresh_sim slow_dummy_config 3600))) =
  Some slow_dummy_matrix.
Proof. split; vm_compute; reflexivity. Qed.

(** C3: the code at the second draw [v = 0].  A particle-reversible
    particle (compartment 1) of the dummy setup with the slowly reversible
    compartments, whose rates are [0; 0; 2e-6; 0; 0], with a first draw
    below its total probability: the step transforms it, and the
    destination found for it is compartment 0 (LMM), whose rate is zero;
    the particle becomes dissolved instead of moving to the one compartment
    of non-zero rate. *)
Theorem zero_draw_selects_zero_rate :
  let row := [0; 0; 2e-6; 0; 0] in
  let st := slow_dummy_particle in
  let rnd := constant_draws 0 0 in
  let p_ii := nth 0 (transformation_probability 3600 [row]) [] in
  let p_total := nth 0 (map sum (transformation_probability 3600 [row])) 0 in
  let after := specie (elements (final (update_speciation rnd st))) in
  rates1D_of st = Some [row] /\
  specie (elements st) = [1%nat] /\
  ran1 rnd 0%nat < p_total /\
  destination p_ii p_total (ran4 rnd 0%nat) = 0%nat /\
  nth 0 after 0%nat = 0%nat /\
  nth 0 row 0 = 0.
Proof.
  intros row st rnd p_ii p_total after.
  assert (Hpos : 0 < p_total).
  { unfold p_total, row. cbn [transformation_probability map nth sum].
    rewrite !prob_zero.
    assert (0 < 1 - exp (- (2e-6) * 3600))
      by (apply (prob_pos 3600); lra || lia).
    lra. }
  assert (Hdest : destination p_ii p_total 0 = 0%nat).
  { apply destination_zero_draw. unfold p_ii, row.
    cbn [transformation_probability map nth]. apply prob_zero. }
  split; [reflexivity|]. split; [reflexivity|].
  split; [exact Hpos|]. split; [exact Hdest|]. split; [|reflexivity].
  unfold after.
  rewrite (update_speciation_specie rnd st 1%nat eq_refl eq_refl 0%nat)
    by (simpl; lia).
  change (time_step_seconds st) with 3600%Z.
  change (nth 1 (arrays2 st) []) with [row].
  fold p_total. fold p_ii.
  change (ran1 rnd 0%nat) with 0.
  destruct (Rlt_dec 0 p_total) as [_|Hn]; [|contradiction].
  exact Hdest.
Qed.

End SpeciationClaims.

(** ** Building the transfer-rate matrix *)

Section MatrixFacts.

Import Np.

Lemma Forall_upd {A : Type} (P : A -> Prop) (i : nat) (v : A) (a : list A) :
  Forall P a -> P v -> Forall P (upd i v a).
Proof.
  intros Ha Hv. revert i.
  induction Ha as [|x a Hx Ha IH]; intros [|i]; simpl; auto.
Qed.

Lemma Forall_nth_default {A : Type} (P : A -> Prop) (a : list A) (i : nat)
    (d : A) :
  Forall P a -> P d -> P (nth i a d).
Proof.
  intros Ha Hd. revert i.
  induction Ha as [|x a Hx _ IH]; intros [|i]; simpl; auto.
Qed.

Lemma nonneg_zeros2 (n m : nat) : nonneg_matrix (zeros2 n m).
Proof.
  unfold nonneg_matrix, zeros2. apply Forall_forall. intros row Hrow.
  apply repeat_spec in Hrow. subst row.
  apply Forall_forall. intros x Hx. apply repeat_spec in Hx. lra.
Qed.

Lemma square_zeros2 (n : nat) : square n (zeros2 n n).
Proof.
  unfold square, zeros2. split; [apply repeat_length|].
  apply Forall_forall. intros row Hrow.
  apply repeat_spec in Hrow. subst row. apply repeat_length.
Qed.

Lemma nonneg_set2 (i j : nat) (v : R) (m : list (list R)) :
  nonneg_matrix m -> 0 <= v -> nonneg_matrix (set2 i j v m).
Proof.
  intros Hm Hv. unfold set2. apply Forall_upd; [exact Hm|].
  apply Forall_upd; [|exact Hv].
  apply Forall_nth_default; [exact Hm | constructor].
Qed.

Lemma square_set2 (n i j : nat) (v : R) (m : list (list R)) :
  in_range2 m i j = true -> square n m -> square n (set2 i j v m).
Proof.
  intros Hr [Hlen Hrows]. unfold set2. split.
  - now rewrite length_upd.
  - apply Forall_upd; [exact Hrows|]. rewrite length_upd.
    unfold in_range2 in Hr. apply andb_prop in Hr as [Hi _].
    apply Nat.ltb_lt in Hi.
    rewrite Forall_forall in Hrows. apply Hrows, nth_In, Hi.
Qed.

Lemma fill_diagonal_from (v : R) (a : list (list R)) (k i : nat) :
  (i < length a)%nat ->
  nth i (map2 (fun j row => upd j v row) (seq k (length a)) a) [] =
  upd (k + i) v (nth i a []).
Proof.
  revert k i. induction a as [|row a IH]; intros k i Hi; simpl in *;
    [lia|].
  destruct i as [|i].
  - now rewrite Nat.add_0_r.
  - rewrite IH by lia. f_equal. lia.
Qed.

Lemma length_fill_diagonal (v : R) (a : list (list R)) :
  length (fill_diagonal v a) = length a.
Proof.
  unfold fill_diagonal. rewrite length_map2, length_seq. lia.
Qed.

Lemma nth_fill_diagonal (v : R) (a : list (list R)) (i : nat) :
  (i < length a)%nat ->
  nth i (fill_diagonal v a) [] = upd i v (nth i a []).
Proof. intros Hi. unfold fill_diagonal. now rewrite fill_diagonal_from. Qed.

Lemma Forall_nth_iff {A : Type} (P : A -> Prop) (a : list A) (d : A) :
  (forall i, (i < length a)%nat -> P (nth i a d)) -> Forall P a.
Proof.
  intros H. apply Forall_forall. intros x Hx.
  destruct (In_nth a x d Hx) as (i & Hi & <-). apply H, Hi.
Qed.

Lemma nonneg_fill_diagonal (a : list (list R)) :
  nonneg_matrix a -> nonneg_matrix (fill_diagonal 0 a).
Proof.
  intros Ha. apply (Forall_nth_iff _ _ []). intros i Hi.
  rewrite length_fill_diagonal in Hi. rewrite nth_fill_diagonal by exact Hi.
  apply Forall_upd; [|lra].
  apply Forall_nth_default; [exact Ha | constructor].
Qed.

Lemma square_fill_diagonal (n : nat) (v : R) (a : list (list R)) :
  square n a -> square n (fill_diagonal v a).
Proof.
  intros [Hlen Hrows]. split; [now rewrite length_fill_diagonal|].
  apply (Forall_nth_iff _ _ []). intros i Hi.
  rewrite length_fill_diagonal in Hi. rewrite nth_fill_diagonal by exact Hi.
  rewrite length_upd. rewrite Forall_forall in Hrows.
  apply Hrows, nth_In, Hi.
Qed.

Lemma diagonal_fill_diagonal (n : nat) (a : list (list R)) (i : nat) :
  square n a -> get2 (fill_diagonal 0 a) i i = 0.
Proof.
  intros [Hlen Hrows]. unfold get2.
  destruct (Nat.lt_ge_cases i (length a)) as [Hi|Hi].
  - rewrite nth_fill_diagonal by exact Hi. apply nth_upd_same.
    rewrite Forall_forall in Hrows.
    rewrite (Hrows (nth i a [])) by (apply nth_In, Hi). lia.
  - rewrite (nth_overflow (fill_diagonal 0 a))
      by (rewrite length_fill_diagonal; exact Hi).
    destruct i; reflexivity.
Qed.

End MatrixFacts.

Section Builder.

Import Np.

Variable cfg : Config.
Variable n : nat.

Let I : Sim -> Prop := rates_built cfg n.

Lemma run_new2 {B : Type} (a : list (list R)) (k : ref -> M B) (s : Sim) :
  bind (new2 a) k s =
  k (length (arrays2 s)) (set_arrays2 (arrays2 s ++ [a]) s).
Proof. reflexivity. Qed.

Lemma keeps_bind_get_config {A B : Type} (f : Config -> A) (k : A -> M B) :
  keeps I (k (f cfg)) -> keeps I (bind (get_config f) k).
Proof.
  intros Hk s Hs. rewrite run_get_config.
  destruct Hs as [Hc Hr]. rewrite Hc. apply Hk. split; assumption.
Qed.

Lemma keeps_bind_py_div {B : Type} (x y : R) (k : R -> M B) :
  (y <> 0 -> keeps I (k (x / y))) -> keeps I (bind (py_div x y) k).
Proof.
  intros Hk s Hs. unfold py_div.
  destruct (Req_dec_T y 0) as [Hy|Hy].
  - rewrite run_raise. exact Hs.
  - rewrite run_ret. apply Hk; assumption.
Qed.

Lemma keeps_specie_name2num (name : string) : keeps I (specie_name2num name).
Proof.
  unfold specie_name2num. intros s Hs. rewrite run_gets.
  destruct (index_of name (name_species s)); exact Hs.
Qed.

Lemma keeps_setitem_transfer_rates (i j : nat) (v : R) :
  0 <= v -> keeps I (setitem_transfer_rates i j v).
Proof.
  intros Hv s Hs. unfold setitem_transfer_rates.
  destruct Hs as [Hc (r & Hr & Hlt & Hsq & Hnn)].
  rewrite (run_attr _ _ _ r) by exact Hr. rewrite run_load2.
  destruct (in_range2 (nth r (arrays2 s) []) i j) eqn:Hin.
  - unfold store2, modify, final. cbn [snd].
    split; [exact Hc|]. exists r. cbn.
    rewrite length_upd, nth_upd_same by exact Hlt.
    repeat split; auto using nonneg_set2; apply square_set2; assumption.
  - split; [exact Hc|]. exists r. auto.
Qed.

Hypothesis Hrange : config_in_range cfg.

Ltac nonneg_product :=
  first [lra | apply Rmult_le_pos; nonneg_product].

Ltac nonneg := unfold config_in_range in Hrange; nonneg_product.

Ltac build_step :=
  lazymatch goal with
  | |- keeps _ (bind (get_config _) _) =>
      apply keeps_bind_get_config; cbv beta zeta
  | |- keeps _ (bind (py_div _ _) _) =>
      apply keeps_bind_py_div; intros ?; cbv beta zeta
  | |- keeps _ (bind _ _) => apply keeps_bind; [|intros ?]
  | |- keeps _ (specie_name2num _) => apply keeps_specie_name2num
  | |- keeps _ (setitem_transfer_rates _ _ _) =>
      apply keeps_setitem_transfer_rates
  | |- keeps _ (modify _) => apply keeps_modify; intros ? Hs; exact Hs
  | |- keeps _ (attr _) => apply keeps_attr
  | |- keeps _ (if _ then _ else _) => apply keeps_if
  | |- keeps _ (ret _) => apply keeps_ret
  | |- keeps _ (raise _) => apply keeps_raise
  end.

(** The three branches of [init_transfer_rates] keep a square matrix
    without negative entries, however they end. *)
Lemma keeps_preset_rates (setup : string) :
  keeps I
    (if String.eqb setup "Bokna_137Cs" then
       i <- specie_name2num "LMM" ;; modify (set_num_lmm (Some i)) ;;
       i <- specie_name2num "Particle reversible" ;;
       modify (set_num_prev (Some i)) ;;
       i <- specie_name2num "Sediment reversible" ;;
       modify (set_num_srev (Some i)) ;;
       i <- specie_name2num "Particle slowly reversible" ;;
       modify (set_num_psrev (Some i)) ;;
       i <- specie_name2num "Sediment slowly reversible" ;;
       modify (set_num_ssrev (Some i)) ;;
       Kd_ <- get_config Kd ;;
       Dc_ <- get_config Dc ;;
       slow_coeff_ <- get_config slow_coeff ;;
       let susp_mat := 1e-3 in
       sedmixdepth_ <- get_config sedmixdepth ;;
       default_density <- get_config sediment_density ;;
       f <- get_config effective_fraction ;;
       phi <- get_config corr_factor ;;
       poro <- get_config porosity ;;
       layer_thick_ <- get_config layer_thick ;;
       lmm <- attr num_lmm ;; prev <- attr num_prev ;;
       setitem_transfer_rates lmm prev (Dc_ * Kd_ * susp_mat) ;;
       prev <- attr num_prev ;; lmm <- attr num_lmm ;;
       setitem_transfer_rates prev lmm Dc_ ;;
       v <- py_div
              (Dc_ * Kd_ * sedmixdepth_ * default_density * (1 - poro) * f
               * phi)
              layer_thick_ ;;
       lmm <- attr num_lmm ;; srev <- attr num_srev ;;
       setitem_transfer_rates lmm srev v ;;
       srev <- attr num_srev ;; lmm <- attr num_lmm ;;
       setitem_transfer_rates srev lmm (Dc_ * phi) ;;
       srev <- attr num_srev ;; ssrev <- attr num_ssrev ;;
       setitem_transfer_rates srev ssrev slow_coeff_ ;;
       prev <- attr num_prev ;; psrev <- attr num_psrev ;;
       setitem_transfer_rates prev psrev slow_coeff_ ;;
       ssrev <- attr num_ssrev ;; srev <- attr num_srev ;;
       setitem_transfer_rates ssrev srev (slow_coeff_ * 0.1) ;;
       psrev <- attr num_psrev ;; prev <- attr num_prev ;;
       setitem_transfer_rates psrev prev (slow_coeff_ * 0.1)
     else if String.eqb setup "dummy" then
       i <- specie_name2num "LMM" ;; modify (set_num_lmm (Some i)) ;;
       colloid <- get_config species_Colloid ;;
       (if colloid then
          i <- specie_name2num "Colloid" ;; modify (set_num_col (Some i))
        else ret tt) ;;
       i <- specie_name2num "Particle reversible" ;;
       modify (set_num_prev (Some i)) ;;
       i <- specie_name2num "Sediment reversible" ;;
       modify (set_num_srev (Some i)) ;;
       slowly <- get_config slowly_fraction ;;
       (if slowly then
          i <- specie_name2num "Particle slowly reversible" ;;
          modify (set_num_psrev (Some i)) ;;
          i <- specie_name2num "Sediment slowly reversible" ;;
          modify (set_num_ssrev (Some i))
        else ret tt) ;;
       lmm <- attr num_lmm ;; prev <- attr num_prev ;;
       setitem_transfer_rates lmm prev 1e-5 ;;
       srev <- attr num_srev ;; lmm <- attr num_lmm ;;
       setitem_transfer_rates srev lmm 5e-6 ;;
       slowly <- get_config slowly_fraction ;;
       (if slowly then
          prev <- attr num_prev ;; psrev <- attr num_psrev ;;
          setitem_transfer_rates prev psrev 2e-6 ;;
          srev <- attr num_srev ;; ssrev <- attr num_ssrev ;;
          setitem_transfer_rates srev ssrev 2e-6 ;;
          psrev <- attr num_psrev ;; prev <- attr num_prev ;;
          setitem_transfer_rates psrev prev 2e-7 ;;
          ssrev <- attr num_ssrev ;; srev <- attr num_srev ;;
          setitem_transfer_rates ssrev srev 2e-7
        else ret tt)
     else raise "TypeError").
Proof.
  repeat build_step; try solve [nonneg].
  (* the rate towards the sediment: a quotient by the layer thickness *)
  unfold Rdiv at 1. apply Rmult_le_pos.
  - nonneg.
  - left. apply Rinv_0_lt_compat. unfold config_in_range in Hrange. lra.
Qed.

End Builder.

Section BuilderClaims.

Import Np.

Lemma example_config_in_range : config_in_range example_config.
Proof. unfold config_in_range, example_config. simpl. lra. Qed.

(** C5: when [init_transfer_rates] returns, for a configuration within the
    bounds of the configspec, the matrix it built is [nspecies] by
    [nspecies], its diagonal is zero and none of its entries is negative. *)
Theorem built_matrix_invariants (st st' : Sim) :
  config_in_range (config st) ->
  init_transfer_rates st = (Ret tt, st') ->
  exists m,
    matrix_of st' = Some m /\
    square (nspecies st) m /\
    (forall i, get2 m i i = 0) /\
    nonneg_matrix m.
Proof.
  intros Hrange Hrun. unfold init_transfer_rates in Hrun.
  rewrite run_get_config, run_gets, run_new2, run_modify in Hrun.
  apply bind_returns in Hrun as (u & s1 & Hbody & Hlast).
  set (s0 := set_transfer_rates _ _) in Hbody.
  assert (H0 : rates_built (config st) (nspecies st) s0).
  { split; [reflexivity|]. exists (length (arrays2 st)).
    unfold s0. cbn. rewrite length_app, nth_app_new. cbn.
    repeat split; auto using nonneg_zeros2; try lia; apply square_zeros2. }
  match type of Hbody with
  | ?body = _ =>
      assert (H1 : rates_built (config st) (nspecies st) (final body))
        by exact (keeps_preset_rates (config st) (nspecies st) Hrange
                    (transfer_setup (config st)) s0 H0)
  end.
  rewrite Hbody in H1. unfold final in H1. cbn [snd] in H1.
  destruct H1 as [_ (r & Hr & Hlt & Hsq & Hnn)].
  rewrite (run_attr _ _ _ r) in Hlast by exact Hr.
  rewrite run_load2 in Hlast. unfold store2, modify in Hlast.
  injection Hlast as <-.
  exists (fill_diagonal 0 (nth r (arrays2 s1) [])).
  unfold matrix_of. cbn. rewrite Hr. cbn.
  rewrite nth_upd_same by exact Hlt.
  repeat split; auto using nonneg_fill_diagonal.
  - destruct Hsq as [Hlen _]. now rewrite length_fill_diagonal.
  - apply square_fill_diagonal, Hsq.
  - intros i. apply (diagonal_fill_diagonal (nspecies st)), Hsq.
Qed.

Lemma built_matrix_invariants_witness :
  let st := named_sim example_config 3600 in
  exists m,
    matrix_of (final (init_transfer_rates st)) = Some m /\
    square 3 m /\
    (forall i, get2 m i i = 0) /\
    nonneg_matrix m.
Proof.
  intros st.
  apply (built_matrix_invariants st (final (init_transfer_rates st))).
  - exact example_config_in_range.
  - vm_compute. reflexivity.
Defined.

(** The matrix of the example: the two rates of the dummy setup. *)
Lemma dummy_matrix_example :
  matrix_of (final (init_transfer_rates (named_sim example_config 3600))) =
  Some dummy_matrix.
Proof. vm_compute. reflexivity. Qed.

(** The builder on a transfer setup that is neither 'Bokna_137Cs' nor
    'dummy': the all-zero array of line 248 is stored, no rate is assigned,
    and the call ends in the else branch of line 303, before the diagonal is
    filled.  (That branch is written [logging.ERROR(...)], where
    [logging.error(...)] was meant.) *)
Lemma init_unknown_setup (st : Sim) :
  transfer_setup (config st) <> "Bokna_137Cs" ->
  transfer_setup (config st) <> "dummy" ->
  init_transfer_rates st =
  (Raise "TypeError",
   set_transfer_rates (Some (length (arrays2 st)))
     (set_arrays2
        (arrays2 st ++ [zeros2 (nspecies st) (nspecies st)]) st)).
Proof.
  intros Hb Hd. unfold init_transfer_rates.
  rewrite run_get_config, run_gets, run_new2, run_modify.
  apply String.eqb_neq in Hb, Hd. rewrite Hb, Hd.
  rewrite run_raise. reflexivity.
Qed.

Lemma reaches_bind_returns (I : Sim -> Prop) (m : M unit)
    (h : unit -> M unit) (k : M unit) :
  always_returns I m -> reaches I (h tt) k -> reaches I (bind m h) k.
Proof.
  intros Hm Hh s Hs. destruct (Hm s Hs) as (s' & Hrun & Hs').
  rewrite (bind_ret_run _ _ _ _ _ Hrun). apply Hh, Hs'.
Qed.

Lemma reaches_bind_get_config {A : Type} (I : Sim -> Prop)
    (f : Config -> A) (h : A -> M unit) (k : M unit) :
  (forall x, reaches I (h x) k) -> reaches I (bind (get_config f) h) k.
Proof. intros Hh s Hs. rewrite run_get_config. apply Hh, Hs. Qed.

(** Lines 202-230 of [prepare_run] never raise and leave the transfer
    setup as it was: [prepare_run] is [init_transfer_rates] run on the
    object they leave. *)
Lemma prepare_run_reaches_init (setup : string) :
  reaches (fun s => transfer_setup (config s) = setup) prepare_run
    init_transfer_rates.
Proof.
  assert (Hmod : forall f : Sim -> Sim,
            (forall s, config (f s) = config s) ->
            always_returns (fun s => transfer_setup (config s) = setup)
              (modify f)).
  { intros f Hf s Hs. eexists. split; [reflexivity|]. now rewrite Hf. }
  assert (Happ : forall flag name,
            always_returns (fun s => transfer_setup (config s) = setup)
              (append_species flag name)).
  { intros flag name s Hs. unfold append_species. rewrite run_get_config.
    destruct (flag (config s)); eexists; split; try reflexivity; exact Hs. }
  assert (Hset : forall (b : bool) (f : Config -> Config),
            (forall c, transfer_setup (f c) = transfer_setup c) ->
            always_returns (fun s => transfer_setup (config s) = setup)
              (if b then set_config f else ret tt)).
  { intros b f Hf s Hs.
    destruct b; eexists; (split; [reflexivity|]); [|exact Hs].
    st_simpl. now rewrite Hf. }
  unfold prepare_run.
  repeat lazymatch goal with
         | |- reaches _ init_transfer_rates _ => fail
         | |- reaches _ (bind (get_config _) _) _ =>
             apply reaches_bind_get_config; intros ?
         | |- reaches _ (bind _ _) _ =>
             apply reaches_bind_returns;
             [ first [ apply Happ
                     | apply Hset; intros c; reflexivity
                     | apply Hmod; intros s; reflexivity ] | ]
         end.
  intros s Hs. exists s. split; [reflexivity | exact Hs].
Qed.

(** C4 (amended): a transfer setup that is neither 'Bokna_137Cs' nor
    'dummy' is not rejected with an [UnknownTransferSetup] error, and a
    rate matrix is produced: whichever way the call ends,
    [init_transfer_rates] leaves the all-zero [nspecies] by [nspecies]
    matrix in [self.transfer_rates], and so does [prepare_run]. *)
Theorem unknown_setup_zero_matrix (st : Sim) :
  transfer_setup (config st) <> "Bokna_137Cs" ->
  transfer_setup (config st) <> "dummy" ->
  let built := final (init_transfer_rates st) in
  let prepared := final (prepare_run st) in
  matrix_of built = Some (zeros2 (nspecies st) (nspecies st)) /\
  matrix_of prepared =
  Some (zeros2 (nspecies prepared) (nspecies prepared)) /\
  ended (init_transfer_rates st) <> Raise "UnknownTransferSetup" /\
  ended (prepare_run st) <> Raise "UnknownTransferSetup".
Proof.
  intros Hb Hd built prepared. subst built prepared.
  destruct (prepare_run_reaches_init (transfer_setup (config st)) st eq_refl)
    as (s1 & Hrun & Hs1).
  rewrite Hrun.
  rewrite (init_unknown_setup st Hb Hd).
  rewrite (init_unknown_setup s1) by (rewrite Hs1; assumption).
  unfold ended, final, matrix_of. cbn [fst snd]. st_simpl. cbn [option_map].
  rewrite !nth_app_new.
  split; [reflexivity|]. split; [reflexivity|].
  split; discriminate.
Qed.

Lemma unknown_setup_zero_matrix_witness :
  let st := named_sim unknown_setup_config 3600 in
  matrix_of (final (init_transfer_rates st)) = Some (zeros2 3 3) /\
  matrix_of (final (prepare_run st)) = Some (zeros2 3 3) /\
  ended (init_transfer_rates st) <> Raise "UnknownTransferSetup" /\
  ended (prepare_run st) <> Raise "UnknownTransferSetup".
Proof.
  intros st.
  assert (Hn : nspecies (final (prepare_run st)) = 3%nat)
    by (vm_compute; reflexivity).
  assert (Hb : transfer_setup (config st) <> "Bokna_137Cs")
    by (simpl; discriminate).
  assert (Hd : transfer_setup (config st) <> "dummy")
    by (simpl; discriminate).
  pose proof (unknown_setup_zero_matrix st Hb Hd) as H.
  cbv zeta in H. rewrite Hn in H. exact H.
Defined.

(** C4 (as stated) fails: for the unknown setup 'Bokna_90Sr' a rate matrix
    is produced.  The object holds no matrix before the call and the
    all-zero 3 by 3 matrix after it, after [init_transfer_rates] and after
    [prepare_run] on a new object alike. *)
Lemma unknown_setup_produces_matrix :
  let st := named_sim unknown_setup_config 3600 in
  let fresh := fresh_sim unknown_setup_config 3600 in
  transfer_setup (config st) = "Bokna_90Sr" /\
  matrix_of st = None /\
  matrix_of (final (init_transfer_rates st)) = Some (zeros2 3 3) /\
  matrix_of fresh = None /\
  matrix_of (final (prepare_run fresh)) = Some (zeros2 3 3).
Proof.
  intros st fresh.
  split; [reflexivity|]. split; [reflexivity|].
  split; [vm_compute; reflexivity|]. split; [reflexivity|].
  vm_compute. reflexivity.
Qed.

End BuilderClaims.

(** ** The rate projector *)

Section Projector.

Import Np.

Lemma nth_put_map2_select {A B : Type} (f : A -> B -> A) (mask : list bool)
    (a : list A) (vals : list B) (i : nat) (d : A) (dv : B) :
  (i < length a)%nat -> length mask = length a ->
  length vals = count_true mask ->
  nth i (put mask (map2 f (select mask a) vals) a) d =
  if nth i mask false
  then f (nth i a d) (nth (count_true (firstn i mask)) vals dv)
  else nth i a d.
Proof.
  intros Hi Hm Hv. rewrite nth_put by exact Hi.
  destruct (nth i mask false) eqn:Hb; [|reflexivity].
  pose proof (rank_lt_count mask i Hb) as Hrank.
  rewrite (nth_indep _ (nth i a d) (f d dv))
    by (rewrite length_map2, length_select, Hv by exact Hm; lia).
  rewrite (nth_map2 f _ _ _ d dv)
    by (rewrite ?length_select, ?Hv by exact Hm; exact Hrank).
  rewrite nth_select_rank by assumption. reflexivity.
Qed.

Lemma forallb_select {A : Type} (P : A -> bool) (mask : list bool)
    (a : list A) :
  forallb P a = true -> forallb P (select mask a) = true.
Proof.
  revert a. induction mask as [|b mask IH]; intros a; [reflexivity|].
  destruct a as [|x a]; [reflexivity|]. simpl.
  intros H. apply andb_prop in H as [Hx Ha].
  destruct b; simpl; rewrite ?Hx; simpl; apply IH; exact Ha.
Qed.

Lemma forallb_nth {A : Type} (P : A -> bool) (a : list A) (d : A) :
  (forall i, (i < length a)%nat -> P (nth i a d) = true) ->
  forallb P a = true.
Proof.
  intros H. apply forallb_forall. intros x Hx.
  destruct (In_nth a x d Hx) as (i & Hi & <-). apply H, Hi.
Qed.

Lemma upd_upd {A : Type} (i : nat) (x y : A) (a : list A) :
  upd i x (upd i y a) = upd i x a.
Proof.
  revert i. induction a as [|h a IH]; intros [|i]; simpl; auto.
  now rewrite IH.
Qed.

Lemma upd_app_new {A : Type} (a : list A) (x y : A) :
  upd (length a) x (a ++ [y])%list = (a ++ [x])%list.
Proof. induction a as [|h a IH]; simpl; auto. now rewrite IH. Qed.

Lemma run_setcol {B : Type} (mask : list bool) (col : nat) (vals : list R)
    (k : unit -> M B) (s : Sim) (r : ref) (a : list (list R)) :
  transfer_rates1D (elements s) = Some r ->
  nth r (arrays2 s) [] = a ->
  forallb (fun row => (col <? length row)%nat) (select mask a) = true ->
  bind (setcol_transfer_rates1D mask col vals) k s =
  k tt (set_arrays2
          (upd r (put mask
                    (map2 (fun row v => upd col v row) (select mask a) vals)
                    a) (arrays2 s)) s).
Proof.
  intros Hr Ha Hin. unfold setcol_transfer_rates1D.
  rewrite run_bind_assoc, (run_attr _ _ _ r) by exact Hr.
  rewrite run_bind_assoc, run_load2, Ha, Hin. reflexivity.
Qed.

Lemma run_getcol {B : Type} (mask : list bool) (col : nat)
    (k : list R -> M B) (s : Sim) (r : ref) (a : list (list R)) :
  transfer_rates1D (elements s) = Some r ->
  nth r (arrays2 s) [] = a ->
  forallb (fun row => (col <? length row)%nat) (select mask a) = true ->
  bind (getcol_transfer_rates1D mask col) k s =
  k (map (fun row => nth col row 0) (select mask a)) s.
Proof.
  intros Hr Ha Hin. unfold getcol_transfer_rates1D.
  rewrite run_bind_assoc, (run_attr _ _ _ r) by exact Hr.
  rewrite run_bind_assoc, run_load2, Ha, Hin. reflexivity.
Qed.

Variable st : Sim.
Variable m : list (list R).
Variables lmm prev srev : nat.
Hypothesis Hready : projection_ready st m lmm prev srev.

Let sp := specie (elements st).
Let thick := layer_thick (config st).
Let rows :=
  projected_rows m lmm prev srev thick sp (z (elements st))
    (sea_floor_depth_below_sea_level (environment st))
    (conc3 (environment st)).

Lemma update_transfer_rates_run :
  update_transfer_rates st =
  (Ret tt,
   set_arrays2 (arrays2 st ++ [rows])
     (set_elements
        (set_transfer_rates1D (Some (length (arrays2 st))) (elements st))
        st)).
Proof.
  destruct Hready as
    ((tr & Htr & Hlt & Hm) & Hlmm & Hprev & Hsrev & Hne & Hrows & Hsp &
     Hz & Hd & Hc).
  unfold update_transfer_rates.
  rewrite (run_attr _ _ _ tr) by exact Htr.
  rewrite run_load2, Hm, run_get_elements.
  assert (Hin : forallb (fun s => (s <? length m)%nat) (specie (elements st))
                = true).
  { apply forallb_forall. intros s Hs. rewrite Forall_forall in Hsp.
    apply Nat.ltb_lt, Hsp, Hs. }
  rewrite Hin, run_ret, run_new2, run_modify_elements, run_gets.
  rewrite run_get_config, run_get_elements, run_get_elements.
  st_simpl.
  rewrite (run_attr _ _ _ lmm) by exact Hlmm.
  rewrite (run_attr _ _ _ srev) by exact Hsrev.
  set (rows0 := map (fun s => nth s m []) (specie (elements st))).
  set (mask := map2 andb _ _).
  assert (Hlen0 : length rows0 = length (specie (elements st)))
    by (unfold rows0; apply length_map).
  assert (Hrow0 : forall i, (i < length rows0)%nat ->
                    (prev < length (nth i rows0 []))%nat /\
                    (srev < length (nth i rows0 []))%nat).
  { intros i Hi. unfold rows0.
    rewrite (nth_map_in _ _ i 0%nat) by (rewrite <- Hlen0; exact Hi).
    rewrite Forall_forall in Hrows, Hsp.
    apply Hrows, nth_In, Hsp, nth_In. rewrite <- Hlen0. exact Hi. }
  assert (Hmask : length mask = length rows0).
  { unfold mask. rewrite length_map2, !length_map, length_map2, length_map.
    lia. }
  erewrite run_setcol; [|reflexivity| st_simpl; apply nth_app_new |].
  2:{ apply forallb_select, (forallb_nth _ _ []). intros i Hi.
      apply Nat.ltb_lt, Hrow0, Hi. }
  st_simpl. rewrite upd_app_new.
  set (rows1 := put mask _ rows0).
  assert (Hlen1 : length rows1 = length rows0)
    by (unfold rows1; apply length_put).
  assert (Hrow1 : forall i, (i < length rows1)%nat ->
                    (prev < length (nth i rows1 []))%nat).
  { intros i Hi. rewrite Hlen1 in Hi. unfold rows1.
    rewrite (nth_put_map2_select _ _ _ _ _ _ 0)
      by (rewrite ?repeat_length; auto).
    destruct (nth i mask false); [rewrite length_upd|]; apply Hrow0, Hi. }
  rewrite run_get_elements. st_simpl.
  rewrite (run_attr _ _ _ lmm) by exact Hlmm.
  rewrite (run_attr _ _ _ prev) by exact Hprev.
  erewrite run_getcol; [|reflexivity| st_simpl; apply nth_app_new |].
  2:{ apply forallb_select, (forallb_nth _ _ []). intros i Hi.
      apply Nat.ltb_lt, Hrow1, Hi. }
  rewrite run_gets. st_simpl.
  unfold setcol_transfer_rates1D.
  rewrite (run_attr _ _ _ (length (arrays2 st))) by reflexivity.
  rewrite run_load2. st_simpl. rewrite nth_app_new.
  rewrite forallb_select
    by (apply (forallb_nth _ _ []); intros i Hi; apply Nat.ltb_lt, Hrow1, Hi).
  unfold store2, modify. st_simpl. rewrite upd_app_new.
  reflexivity.
Qed.

Lemma Rgtb_distance (zz depth t : R) :
  Rgtb (zz - -1 * depth) t = Rgtb (zz + depth) t.
Proof.
  unfold Rgtb, Rltb.
  destruct (Rlt_dec t (zz - -1 * depth)), (Rlt_dec t (zz + depth));
    auto; lra.
Qed.

(** Entry by entry, the projected rows are the matrix rows with the two
    modifications of the dissolved particles. *)
Lemma projected_rows_entry (i j : nat) :
  (i < length sp)%nat ->
  get2 rows i j =
  projected_rate m lmm prev srev thick (nth i sp 0%nat)
    (nth i (z (elements st)) 0)
    (nth i (sea_floor_depth_below_sea_level (environment st)) 0)
    (nth i (conc3 (environment st)) 0) j.
Proof.
  intros Hi.
  destruct Hready as
    ((tr & Htr & Hlt & Hm) & Hlmm & Hprev & Hsrev & Hne & Hrows & Hsp &
     Hz & Hd & Hc).
  fold sp in Hsp, Hz, Hd, Hc.
  unfold rows, projected_rows, get2.
  set (zz := z (elements st)) in *.
  set (depth := sea_floor_depth_below_sea_level (environment st)) in *.
  set (conc := conc3 (environment st)) in *.
  set (rows0 := map (fun s => nth s m []) sp).
  set (mask := map2 andb _ _).
  set (rows1 := put mask _ rows0).
  set (kk := map (fun s => (s =? lmm)%nat) sp).
  assert (Hlen0 : length rows0 = length sp) by (unfold rows0; apply length_map).
  assert (Hmask : length mask = length rows0).
  { unfold mask. rewrite length_map2, !length_map, length_map2, length_map.
    lia. }
  assert (Hlen1 : length rows1 = length rows0)
    by (unfold rows1; apply length_put).
  assert (Hkk : length kk = length rows1)
    by (unfold kk; rewrite length_map; lia).
  assert (Hn0 : nth i rows0 [] = nth (nth i sp 0%nat) m []).
  { unfold rows0. now rewrite (nth_map_in _ _ i 0%nat) by exact Hi. }
  assert (Hbound : (prev < length (nth i rows0 []))%nat /\
                   (srev < length (nth i rows0 []))%nat).
  { rewrite Hn0. rewrite Forall_forall in Hrows, Hsp.
    apply Hrows, nth_In, Hsp, nth_In, Hi. }
  assert (Hmi : nth i mask false =
                ((nth i sp 0%nat =? lmm)%nat &&
                 Rgtb (nth i zz 0 + nth i depth 0) thick)%bool).
  { unfold mask.
    rewrite (nth_map2 andb _ _ i false false)
      by (rewrite ?length_map, ?length_map2, ?length_map; lia).
    rewrite (nth_map_in _ sp i 0%nat) by exact Hi.
    rewrite (nth_map_in _ _ i 0)
      by (rewrite length_map2, length_map; lia).
    rewrite (nth_map2 Rminus _ _ i 0 0) by (rewrite ?length_map; lia).
    rewrite (nth_map_in _ depth i 0) by lia.
    now rewrite Rgtb_distance. }
  assert (Hn1 : nth i rows1 [] =
                if nth i mask false then upd srev 0 (nth i rows0 [])
                else nth i rows0 []).
  { unfold rows1.
    rewrite (nth_put_map2_select _ _ _ _ _ _ 0)
      by (rewrite ?repeat_length; auto; lia).
    destruct (nth i mask false) eqn:Hb; [|reflexivity].
    now rewrite nth_repeat. }
  assert (Hki : nth i kk false = (nth i sp 0%nat =? lmm)%nat).
  { unfold kk. now rewrite (nth_map_in _ sp i 0%nat) by exact Hi. }
  rewrite (nth_put_map2_select _ _ _ _ _ _ 0);
    [ | lia | lia
      | rewrite length_map2, length_map, !length_select by lia; lia ].
  rewrite Hki. unfold projected_rate, get2.
  destruct (Nat.eqb_spec (nth i sp 0%nat) lmm) as [Hs|Hs].
  - pose proof Hki as Hkt.
    assert (Hrank : (count_true (firstn i kk) < count_true kk)%nat)
      by (apply rank_lt_count; exact Hkt).
    rewrite (nth_map2 _ _ _ _ 0 0)
      by (rewrite ?length_map, !length_select; unfold conc in *; lia).
    rewrite (nth_map_in _ _ _ [])
      by (rewrite length_select; lia).
    rewrite !nth_select_rank by (try exact Hkt; unfold conc in *; lia).
    rewrite Hn1, Hmi. cbn [andb]. rewrite <- Hn0.
    destruct Hbound as [Hp Hsr].
    destruct (Rgtb (nth i zz 0 + nth i depth 0) thick);
      rewrite ?andb_false_r, ?andb_true_r, ?nth_upd, ?length_upd;
      destruct (Nat.ltb_spec prev (length (nth i rows0 []))); try lia;
      destruct (Nat.ltb_spec srev (length (nth i rows0 []))); try lia;
      destruct (Nat.eqb_spec prev srev); try contradiction;
      destruct (Nat.eqb_spec j srev); destruct (Nat.eqb_spec j prev);
      subst; cbn [andb]; try congruence; try reflexivity;
      try (unfold Rdiv; ring).
  - rewrite Hn1, Hmi. cbn [andb]. now rewrite Hn0.
Qed.

Lemma length_projected_rows : length rows = length sp.
Proof.
  unfold rows, projected_rows. now rewrite !length_put, length_map.
Qed.

(** The row of a particle that is not dissolved is a copy of its matrix
    row. *)
Lemma projected_rows_copy (i : nat) :
  (i < length sp)%nat -> nth i sp 0%nat <> lmm ->
  nth i rows [] = nth (nth i sp 0%nat) m [].
Proof.
  intros Hi Hs.
  destruct Hready as
    ((tr & Htr & Hlt & Hm) & Hlmm & Hprev & Hsrev & Hne & Hrows & Hsp &
     Hz & Hd & Hc).
  fold sp in Hsp, Hz, Hd, Hc.
  unfold rows, projected_rows.
  set (rows0 := map (fun s => nth s m []) sp).
  set (mask := map2 andb _ _).
  set (rows1 := put mask _ rows0).
  set (kk := map (fun s => (s =? lmm)%nat) sp).
  assert (Hlen0 : length rows0 = length sp) by (unfold rows0; apply length_map).
  assert (Hlen1 : length rows1 = length rows0)
    by (unfold rows1; apply length_put).
  assert (Hki : nth i kk false = false).
  { unfold kk. rewrite (nth_map_in _ sp i 0%nat) by exact Hi.
    now apply Nat.eqb_neq. }
  assert (Hmi : nth i mask false = false).
  { unfold mask.
    rewrite (nth_map2 andb _ _ i false false)
      by (rewrite ?length_map, ?length_map2, ?length_map; lia).
    rewrite (nth_map_in _ sp i 0%nat) by exact Hi.
    apply Nat.eqb_neq in Hs. now rewrite Hs. }
  rewrite nth_put, Hki by lia. unfold rows1.
  rewrite nth_put, Hmi by lia. unfold rows0.
  now rewrite (nth_map_in _ sp i 0%nat) by exact Hi.
Qed.

End Projector.

(** C6: [update_transfer_rates] gives every particle the matrix row of its
    compartment, with the entry towards sediment-reversible set to zero for
    a dissolved particle further above the seafloor than the interaction
    layer, and the entry towards particle-reversible of every dissolved
    particle multiplied by [conc3 / 1e-3]; nothing else differs, and the
    rows of particles that are not dissolved are copies of their matrix
    row. *)
Theorem rate_projection (st : Sim) (m : list (list R)) (lmm prev srev : nat) :
  projection_ready st m lmm prev srev ->
  exists st' rows,
    update_transfer_rates st = (Ret tt, st') /\
    rates1D_of st' = Some rows /\
    length rows = length (specie (elements st)) /\
    (forall i j, (i < length (specie (elements st)))%nat ->
       Np.get2 rows i j =
       projected_rate m lmm prev srev (layer_thick (config st))
         (nth i (specie (elements st)) 0%nat)
         (nth i (z (elements st)) 0)
         (nth i (sea_floor_depth_below_sea_level (environment st)) 0)
         (nth i (conc3 (environment st)) 0) j) /\
    (forall i, (i < length (specie (elements st)))%nat ->
       nth i (specie (elements st)) 0%nat <> lmm ->
       nth i rows [] = nth (nth i (specie (elements st)) 0%nat) m []).
Proof.
  intros Hready.
  eexists. eexists. split; [apply (update_transfer_rates_run st m lmm prev srev Hready)|].
  split.
  { unfold rates1D_of. st_simpl. cbn [option_map].
    now rewrite nth_app_new. }
  split; [apply length_projected_rows|].
  split.
  - intros i j Hi. apply projected_rows_entry; assumption.
  - intros i Hi Hs. apply projected_rows_copy; assumption.
Qed.

Lemma dummy_run_ready (cfg : Config) (dt : Z) :
  projection_ready
    (dummy_run cfg dt [0; 2]%nat [-50; -100] [5; 5] [60; 60] [100; 100]
       [2e-3; 2e-3])
    dummy_matrix 0 1 2.
Proof.
  unfold projection_ready, dummy_run, dummy_matrix. st_simpl.
  repeat split; try reflexivity; try lia.
  - exists 0%nat. repeat split; cbn; lia.
  - repeat constructor; cbn; lia.
  - repeat constructor; cbn; lia.
Qed.

Lemma rate_projection_witness :
  let st := dummy_run example_config 3600 [0; 2]%nat [-50; -100] [5; 5]
              [60; 60] [100; 100] [2e-3; 2e-3] in
  exists st' rows,
    update_transfer_rates st = (Ret tt, st') /\
    rates1D_of st' = Some rows /\
    length rows = 2%nat /\
    (forall i j, (i < 2)%nat ->
       Np.get2 rows i j =
       projected_rate dummy_matrix 0 1 2 1
         (nth i [0; 2]%nat 0%nat) (nth i [-50; -100] 0)
         (nth i [100; 100] 0) (nth i [2e-3; 2e-3] 0) j) /\
    (forall i, (i < 2)%nat -> nth i [0; 2]%nat 0%nat <> 0%nat ->
       nth i rows [] = nth (nth i [0; 2]%nat 0%nat) dummy_matrix []).
Proof.
  intros st.
  apply (rate_projection st dummy_matrix 0 1 2).
  unfold projection_ready, st, dummy_run, dummy_matrix. st_simpl.
  repeat split; try reflexivity; try lia.
  - exists 0%nat. repeat split; cbn; lia.
  - repeat constructor; cbn; lia.
  - repeat constructor; cbn; lia.
Defined.

(** ** What the per-step operations leave alone *)

Section Frames.

Variable I : Sim -> Prop.
Hypothesis I_z : ignores_z I.
Hypothesis I_diameter : ignores_diameter I.
Hypothesis I_specie : ignores_specie I.
Hypothesis I_terminal_velocity : ignores_terminal_velocity I.

Lemma keeps_set_specie (f : Elements -> list nat) :
  keeps I (modify_elements (fun e => set_specie (f e) e)).
Proof. intros s Hs. apply I_specie, Hs. Qed.

Lemma keeps_update_speciation (rnd : Random) :
  keeps I (update_speciation rnd).
Proof.
  unfold update_speciation. keeps_auto.
  - apply (keeps_set_specie (fun _ => _)).
  - apply keeps_update_radionuclide_diameter; assumption.
  - apply keeps_sorption_to_sediments; assumption.
  - apply keeps_desorption_from_sediments; assumption.
Qed.

Lemma keeps_deposit (bottom : list nat) (src dst : nat) :
  keeps I (deposit bottom src dst).
Proof. unfold deposit. keeps_auto. apply keeps_set_specie. Qed.

Lemma keeps_bottom_interaction (Zmin : list R) :
  keeps I (bottom_interaction Zmin).
Proof.
  unfold bottom_interaction. keeps_auto; apply keeps_deposit.
Qed.

Lemma keeps_update_terminal_velocity (host : Host) :
  keeps I (update_terminal_velocity host).
Proof.
  unfold update_terminal_velocity. keeps_auto.
  intros s Hs. apply I_terminal_velocity, Hs.
Qed.

Lemma keeps_reset_z (z_before : list R) (num : nat) :
  keeps I (reset_z z_before num).
Proof. unfold reset_z. keeps_auto. apply keeps_z_put, I_z. Qed.

End Frames.

(** ** The rate matrix after initialisation *)

Section Immutable.

Import Np.

Variable m : list (list R).

Lemma holds_matrix_ignores :
  ignores_z (holds_matrix m) /\ ignores_diameter (holds_matrix m) /\
  ignores_specie (holds_matrix m) /\
  ignores_terminal_velocity (holds_matrix m).
Proof. repeat split; intros s v Hs; exact Hs. Qed.

Lemma holds_matrix_apart_weaken (s : Sim) :
  holds_matrix_apart m s -> holds_matrix m s.
Proof. intros (tr & r1 & H1 & H2 & H3 & _). exists tr. auto. Qed.

(** A masked column assignment writes into the array object of
    [transfer_rates1D], which is not the matrix. *)
Lemma keeps_setcol (mask : list bool) (col : nat) (vals : list R) :
  keeps (holds_matrix_apart m) (setcol_transfer_rates1D mask col vals).
Proof.
  intros s Hs. pose proof Hs as (tr & r1 & Htr & Hlt & Hm & Hr1 & Hne).
  unfold setcol_transfer_rates1D.
  rewrite (run_attr _ _ _ r1) by exact Hr1. rewrite run_load2.
  destruct (forallb _ _); [|exact Hs].
  unfold store2, modify, final. cbn [snd].
  exists tr, r1. st_simpl. rewrite length_upd, nth_upd_other by auto.
  auto.
Qed.

Lemma keeps_getcol (mask : list bool) (col : nat) :
  keeps (holds_matrix_apart m) (getcol_transfer_rates1D mask col).
Proof.
  unfold getcol_transfer_rates1D. keeps_auto.
Qed.

Lemma keeps_update_transfer_rates :
  keeps (holds_matrix m) update_transfer_rates.
Proof.
  intros s Hs. pose proof Hs as (tr & Htr & Hlt & Hm).
  unfold update_transfer_rates.
  rewrite (run_attr _ _ _ tr) by exact Htr.
  rewrite run_load2, run_get_elements.
  destruct (forallb _ _); [|exact Hs].
  rewrite run_ret, run_new2, run_modify_elements.
  apply holds_matrix_apart_weaken.
  match goal with
  | |- holds_matrix_apart m (final (?rest ?s0)) =>
      assert (H0 : holds_matrix_apart m s0)
  end.
  { exists tr, (length (arrays2 s)). st_simpl.
    rewrite length_app, nth_app_old by exact Hlt. cbn [length].
    repeat split; auto; lia. }
  revert H0. generalize (length (arrays2 s)). intros r1d H0.
  match goal with
  | |- holds_matrix_apart m (final (?rest ?s0)) =>
      revert H0; generalize s0; change (keeps (holds_matrix_apart m) rest)
  end.
  keeps_auto; auto using keeps_setcol, keeps_getcol.
Qed.

Lemma keeps_reset_position (field : Elements -> ref) (saved : ref)
    (num : nat) :
  keeps (holds_matrix m) (reset_position field saved num).
Proof.
  unfold reset_position. keeps_auto. intros s Hs. exact Hs.
Qed.

Section Step.

Variable host : Host.
Variable rnd : Random.
Hypothesis host_mixing : keeps (holds_matrix m) (vertical_mixing host).
Hypothesis host_advect : keeps (holds_matrix m) (advect_ocean_current host).
Hypothesis host_vadvect : keeps (holds_matrix m) (vertical_advection host).

Lemma keeps_update : keeps (holds_matrix m) (update host rnd).
Proof.
  destruct holds_matrix_ignores as (Hz & Hd & Hs & Ht).
  unfold update. keeps_auto;
    auto using keeps_update_transfer_rates, keeps_update_speciation,
      keeps_update_terminal_velocity, keeps_reset_position, keeps_reset_z.
Qed.

End Step.

End Immutable.

(** C9: once stored, the transfer-rate matrix is not modified by the rate
    projection, by the speciation step and its handlers, by bottom
    deposition or by the terminal-velocity update, however these calls end;
    nor by a whole [update] step when the inherited host methods do not
    modify it. *)
Theorem transfer_rates_immutable (host : Host) (rnd : Random)
    (Zmin : list R) (st : Sim) (m : list (list R)) :
  holds_matrix m st ->
  matrix_of (final (update_transfer_rates st)) = Some m /\
  matrix_of (final (update_speciation rnd st)) = Some m /\
  matrix_of (final (bottom_interaction Zmin st)) = Some m /\
  matrix_of (final (update_terminal_velocity host st)) = Some m /\
  (keeps (holds_matrix m) (vertical_mixing host) ->
   keeps (holds_matrix m) (advect_ocean_current host) ->
   keeps (holds_matrix m) (vertical_advection host) ->
   matrix_of (final (update host rnd st)) = Some m).
Proof.
  intros Hst.
  assert (Hm : forall s, holds_matrix m s -> matrix_of s = Some m).
  { intros s (tr & Htr & _ & Hm). unfold matrix_of. now rewrite Htr, <- Hm. }
  destruct (holds_matrix_ignores m) as (Hz & Hd & Hs & Ht).
  repeat split.
  - apply Hm, keeps_update_transfer_rates, Hst.
  - apply Hm, keeps_update_speciation; assumption.
  - apply Hm, keeps_bottom_interaction; assumption.
  - apply Hm, keeps_update_terminal_velocity; assumption.
  - intros H1 H2 H3. apply Hm, keeps_update; assumption.
Qed.

Lemma transfer_rates_immutable_witness :
  let st := dummy_run example_config 3600 [0; 2]%nat [-50; -100] [5; 5]
              [60; 60] [100; 100] [2e-3; 2e-3] in
  let rnd := constant_draws 0.5 0.5 in
  matrix_of (final (update_transfer_rates st)) = Some dummy_matrix /\
  matrix_of (final (update_speciation rnd st)) = Some dummy_matrix /\
  matrix_of (final (bottom_interaction [-100; -100] st)) = Some dummy_matrix /\
  matrix_of (final (update_terminal_velocity still_host st))
    = Some dummy_matrix /\
  matrix_of (final (update still_host rnd st)) = Some dummy_matrix.
Proof.
  intros st rnd.
  assert (Hst : holds_matrix dummy_matrix st).
  { exists 0%nat. repeat split. simpl. lia. }
  destruct (transfer_rates_immutable still_host rnd [-100; -100] st
              dummy_matrix Hst) as (H1 & H2 & H3 & H4 & H5).
  repeat split; try assumption.
  apply H5; intros s Hs; exact Hs.
Defined.

(** ** Bottom deposition *)

Section IndexArrays.

Import Np.

Lemma existsb_where_from (mask : list bool) (k i : nat) :
  existsb (Nat.eqb i) (where_from k mask) =
  ((k <=? i)%nat && nth (i - k) mask false)%bool.
Proof.
  revert k. induction mask as [|b mask IH]; intros k; cbn [where_from].
  - cbn [existsb]. destruct (i - k)%nat; now rewrite andb_false_r.
  - assert (Hcase :
      existsb (Nat.eqb i)
        (if b then k :: where_from (S k) mask else where_from (S k) mask) =
      (((i =? k)%nat && b) || existsb (Nat.eqb i) (where_from (S k) mask))%bool)
      by (destruct b; cbn [existsb];
          rewrite ?andb_true_r, ?andb_false_r; reflexivity).
    rewrite Hcase, IH. clear Hcase IH.
    destruct (Nat.eqb_spec i k) as [->|Hne].
    + rewrite Nat.sub_diag, Nat.leb_refl. cbn [nth andb].
      destruct (Nat.leb_spec (S k) k); [lia|]. cbn [andb].
      now rewrite orb_false_r.
    + cbn [andb orb].
      destruct (Nat.leb_spec (S k) i), (Nat.leb_spec k i); try lia;
        cbn [andb]; try reflexivity.
      replace (i - k)%nat with (S (i - S k)) by lia. reflexivity.
Qed.

Lemma existsb_where_true (mask : list bool) (i : nat) :
  existsb (Nat.eqb i) (where_true mask) = nth i mask false.
Proof.
  unfold where_true. rewrite existsb_where_from, Nat.sub_0_r. reflexivity.
Qed.

Lemma take_where_from {A : Type} (g : A -> bool) (d : A) (pre l : list A) :
  map (fun i => nth i (pre ++ l)%list d)
      (where_from (length pre) (map g l)) = filter g l.
Proof.
  revert pre. induction l as [|x l IH]; intros pre; simpl; auto.
  specialize (IH (pre ++ [x])%list).
  rewrite length_app, Nat.add_1_r, <- app_assoc in IH. simpl in IH.
  destruct (g x); simpl; rewrite IH; auto.
  rewrite app_nth2, Nat.sub_diag by lia. reflexivity.
Qed.

(** [bottom[where(f(bottom))]] keeps the indices of [bottom] where [f]
    holds. *)
Lemma take_where_true {A : Type} (g : A -> bool) (d : A) (l : list A) :
  take d l (where_true (map g l)) = filter g l.
Proof. apply (take_where_from g d [] l). Qed.

Lemma existsb_filter (g : nat -> bool) (l : list nat) (i : nat) :
  existsb (Nat.eqb i) (filter g l) = (g i && existsb (Nat.eqb i) l)%bool.
Proof.
  induction l as [|x l IH]; simpl.
  - now rewrite andb_false_r.
  - destruct (g x) eqn:Hx; simpl; rewrite IH;
      destruct (Nat.eqb_spec i x) as [->|Hne]; simpl;
      rewrite ?Hx, ?orb_false_r, ?andb_true_r; simpl; auto.
Qed.

Lemma length_put_at {A : Type} (idx : list nat) (v : A) (a : list A) :
  length (put_at idx v a) = length a.
Proof.
  unfold put_at. revert a. induction idx as [|k idx IH]; intros a; simpl; auto.
  now rewrite IH, length_upd.
Qed.

Lemma nth_put_at {A : Type} (idx : list nat) (v : A) (a : list A) (i : nat)
    (d : A) :
  (i < length a)%nat ->
  nth i (put_at idx v a) d =
  if existsb (Nat.eqb i) idx then v else nth i a d.
Proof.
  unfold put_at. revert a. induction idx as [|k idx IH]; intros a Hi; simpl.
  - reflexivity.
  - rewrite IH by (rewrite length_upd; exact Hi).
    destruct (existsb (Nat.eqb i) idx); [now rewrite orb_true_r|].
    rewrite orb_false_r, nth_upd.
    destruct (Nat.eqb_spec i k) as [->|Hne]; simpl; auto.
    destruct (Nat.ltb_spec k (length a)); [reflexivity | lia].
Qed.

(** The compartments after one mapping of [bottom_interaction]. *)
Lemma deposit_specie (mask : list bool) (src dst : nat) (s : Sim) (i : nat) :
  (i < length (specie (elements s)))%nat ->
  nth i (specie (elements (final (deposit (where_true mask) src dst s))))
      0%nat =
  if (nth i mask false && (nth i (specie (elements s)) 0 =? src)%nat)%bool
  then dst else nth i (specie (elements s)) 0%nat.
Proof.
  intros Hi. unfold deposit. rewrite run_get_elements.
  unfold modify_elements, modify, final. cbn [snd]. st_simpl.
  change (take 0%nat (specie (elements s)) (where_true mask))
    with (map (fun b => nth b (specie (elements s)) 0%nat) (where_true mask)).
  rewrite map_map.
  rewrite (take_where_true
             (fun b => (nth b (specie (elements s)) 0 =? src)%nat)).
  rewrite nth_put_at by exact Hi.
  rewrite existsb_filter, existsb_where_true, andb_comm. reflexivity.
Qed.

End IndexArrays.

Lemma keeps_bind_get_config_eq {A B : Type} (I : Sim -> Prop) (cfg : Config)
    (f : Config -> A) (k : A -> M B) :
  (forall s, I s -> config s = cfg) ->
  keeps I (k (f cfg)) -> keeps I (bind (get_config f) k).
Proof.
  intros Hc Hk s Hs. rewrite run_get_config, (Hc s Hs). apply Hk, Hs.
Qed.

Lemma keeps_bind_attr_eq {A B : Type} (I : Sim -> Prop)
    (f : Sim -> option A) (c : option A) (k : A -> M B) :
  (forall s, I s -> f s = c) ->
  (forall v, c = Some v -> keeps I (k v)) -> keeps I (bind (attr f) k).
Proof.
  intros Hc Hk s Hs. pose proof (Hc s Hs) as Hf. destruct c as [v|].
  - rewrite (run_attr _ _ _ v) by exact Hf. apply (Hk v eq_refl), Hs.
  - rewrite run_attr_none by exact Hf. exact Hs.
Qed.

Section BottomInteraction.

Import Np.

Variable Zmin : list R.
Variable st : Sim.
Variables prev srev : nat.

Hypothesis Hprev : num_prev st = Some prev.
Hypothesis Hsrev : num_srev st = Some srev.
Hypothesis Hpsrev : num_psrev st <> Some srev.
Hypothesis Hpirrev : num_pirrev st <> Some srev.
Hypothesis Hz : length (z (elements st)) = length (specie (elements st)).
Hypothesis HZmin : length Zmin = length (specie (elements st)).

Variable i : nat.
Hypothesis Hi : (i < length (specie (elements st)))%nat.

Let mask : list bool := map2 Rleb (z (elements st)) Zmin.

Lemma nth_bottom_mask :
  nth i mask false = Rleb (nth i (z (elements st)) 0) (nth i Zmin 0).
Proof. unfold mask. apply nth_map2; lia. Qed.

(** A later mapping, from a compartment other than sediment-reversible,
    keeps what the first mapping established. *)
Lemma keeps_later_deposit (src dst : nat) :
  src <> srev ->
  (nth i (specie (elements st)) 0%nat <> prev ->
   (slowly_fraction (config st) = true ->
    num_psrev st <> Some (nth i (specie (elements st)) 0%nat)) ->
   (irreversible_fraction (config st) = true ->
    num_pirrev st <> Some (nth i (specie (elements st)) 0%nat)) ->
   nth i (specie (elements st)) 0%nat <> src) ->
  keeps (deposited Zmin st prev srev i) (deposit (where_true mask) src dst).
Proof.
  intros Hsrc Hpart s Hs.
  destruct Hs as (Hc & H1 & H2 & H3 & H4 & Hzs & Hds & Hlen & Ha & Hb & Hcc).
  assert (Hi' : (i < length (specie (elements s)))%nat) by lia.
  pose proof (deposit_specie mask src dst s i Hi') as Hnth.
  rewrite nth_bottom_mask in Hnth.
  unfold deposited.
  assert (Hframe : forall (A : Type) (f : Sim -> A),
            (forall v, f (set_elements (set_specie v (elements s)) s) = f s) ->
            f (final (deposit (where_true mask) src dst s)) = f s).
  { intros A f Hf. unfold deposit. rewrite run_get_elements.
    unfold modify_elements, modify, final. cbn [snd]. apply Hf. }
  rewrite (Hframe _ config), (Hframe _ num_psrev), (Hframe _ num_ssrev),
    (Hframe _ num_pirrev), (Hframe _ num_sirrev),
    (Hframe _ (fun s => z (elements s))),
    (Hframe _ (fun s => diameter (elements s))) by reflexivity.
  repeat (split; [assumption|]).
  split.
  { unfold deposit. rewrite run_get_elements.
    unfold modify_elements, modify, final. cbn [snd]. st_simpl.
    now rewrite length_put_at. }
  rewrite Hnth.
  split; [|split].
  - intros Hp Hdeep. rewrite (Ha Hp Hdeep).
    destruct (Nat.eqb_spec srev src); [congruence|].
    now rewrite andb_false_r.
  - intros Hnd.
    assert (Hr : Rleb (nth i (z (elements st)) 0) (nth i Zmin 0) = false)
      by (apply Rleb_false; lra).
    rewrite Hr. cbn [andb]. apply Hb, Hnd.
  - intros Hp Hs1 Hs2. rewrite (Hcc Hp Hs1 Hs2).
    destruct (Nat.eqb_spec (nth i (specie (elements st)) 0%nat) src) as [He|_].
    + exfalso. exact (Hpart Hp Hs1 Hs2 He).
    + now rewrite andb_false_r.
Qed.

Lemma bottom_interaction_deposited :
  deposited Zmin st prev srev i (final (bottom_interaction Zmin st)).
Proof.
  unfold bottom_interaction. rewrite run_get_elements.
  rewrite (run_attr _ _ _ prev) by exact Hprev.
  rewrite (run_attr _ _ _ srev) by exact Hsrev.
  fold mask.
  (* the first mapping *)
  unfold deposit at 1.
  rewrite run_bind_assoc, run_get_elements, run_modify_elements.
  set (s1 := set_elements _ st).
  assert (H1 : deposited Zmin st prev srev i s1).
  { pose proof (deposit_specie mask prev srev st i Hi) as Hnth.
    change (final (deposit (where_true mask) prev srev st)) with s1 in Hnth.
    rewrite nth_bottom_mask in Hnth.
    unfold deposited. rewrite Hnth.
    repeat (split; [reflexivity|]).
    split; [unfold s1; st_simpl; now rewrite length_put_at|].
    split; [|split].
    - intros Hp Hdeep. rewrite Hp, Nat.eqb_refl.
      apply Rleb_true in Hdeep. now rewrite Hdeep.
    - intros Hnd.
      assert (Hr : Rleb (nth i (z (elements st)) 0) (nth i Zmin 0) = false)
        by (apply Rleb_false; lra).
      now rewrite Hr.
    - intros Hp _ _.
      destruct (Nat.eqb_spec (nth i (specie (elements st)) 0%nat) prev);
        [contradiction|].
      now rewrite andb_false_r. }
  revert H1. generalize s1.
  match goal with
  | |- forall s1, _ -> deposited _ _ _ _ _ (final (?rest s1)) =>
      change (keeps (deposited Zmin st prev srev i) rest)
  end.
  apply (keeps_bind_get_config_eq _ (config st));
    [intros s Hs; apply Hs|].
  apply keeps_bind; [|intros _].
  - destruct (slowly_fraction (config st)) eqn:Hslow; [|apply keeps_ret].
    apply (keeps_bind_attr_eq _ _ (num_psrev st));
      [intros s Hs; apply Hs|]. intros psrev Hps.
    apply (keeps_bind_attr_eq _ _ (num_ssrev st));
      [intros s Hs; apply Hs|]. intros ssrev _.
    apply keeps_later_deposit.
    + congruence.
    + intros _ Hs1 _ He. apply Hs1; [exact Hslow|]. congruence.
  - apply (keeps_bind_get_config_eq _ (config st));
      [intros s Hs; apply Hs|].
    destruct (irreversible_fraction (config st)) eqn:Hirr; [|apply keeps_ret].
    apply (keeps_bind_attr_eq _ _ (num_pirrev st));
      [intros s Hs; apply Hs|]. intros pirrev Hps.
    apply (keeps_bind_attr_eq _ _ (num_sirrev st));
      [intros s Hs; apply Hs|]. intros sirrev _.
    apply keeps_later_deposit.
    + congruence.
    + intros _ _ Hs2 He. apply Hs2; [exact Hirr|]. congruence.
Qed.

End BottomInteraction.

Lemma keeps_length_bottom_interaction (n : nat) (Zmin : list R) :
  keeps (fun s => length (specie (elements s)) = n)
    (bottom_interaction Zmin).
Proof.
  assert (Hd : forall bottom src dst,
            keeps (fun s => length (specie (elements s)) = n)
              (deposit bottom src dst)).
  { intros bottom src dst s Hs. unfold deposit. rewrite run_get_elements.
    unfold modify_elements, modify, final. cbn [snd]. st_simpl.
    now rewrite length_put_at. }
  unfold bottom_interaction. keeps_auto; apply Hd.
Qed.

(** C8: [bottom_interaction] moves every particle-reversible particle at or
    below its threshold to sediment-reversible, and leaves the particles
    above their threshold and the particles in no particulate compartment in
    their compartment; it changes no [z] and no [diameter].  (The
    compartment indices are those of distinct compartments: no particulate
    index equals the sediment-reversible one.) *)
Theorem bottom_deposition (Zmin : list R) (st : Sim) (prev srev : nat) :
  num_prev st = Some prev ->
  num_srev st = Some srev ->
  num_psrev st <> Some srev ->
  num_pirrev st <> Some srev ->
  length (z (elements st)) = length (specie (elements st)) ->
  length Zmin = length (specie (elements st)) ->
  let after := elements (final (bottom_interaction Zmin st)) in
  z after = z (elements st) /\
  diameter after = diameter (elements st) /\
  length (specie after) = length (specie (elements st)) /\
  forall i, (i < length (specie (elements st)))%nat ->
    let s_i := nth i (specie (elements st)) 0%nat in
    let deep := nth i (z (elements st)) 0 <= nth i Zmin 0 in
    (s_i = prev -> deep -> nth i (specie after) 0%nat = srev) /\
    (~ deep -> nth i (specie after) 0%nat = s_i) /\
    (s_i <> prev ->
     (slowly_fraction (config st) = true -> num_psrev st <> Some s_i) ->
     (irreversible_fraction (config st) = true ->
      num_pirrev st <> Some s_i) ->
     nth i (specie after) 0%nat = s_i).
Proof.
  intros Hprev Hsrev Hps Hpi Hz HZ after.
  split; [|split; [|split]].
  - apply (keeps_bottom_interaction
             (fun s => z (elements s) = z (elements st)));
      [intros s v H; exact H | reflexivity].
  - apply (keeps_bottom_interaction
             (fun s => diameter (elements s) = diameter (elements st)));
      [intros s v H; exact H | reflexivity].
  - apply (keeps_length_bottom_interaction
             (length (specie (elements st)))). reflexivity.
  - intros i Hi.
    pose proof (bottom_interaction_deposited Zmin st prev srev Hprev Hsrev
                  Hps Hpi Hz HZ i Hi) as H.
    unfold deposited in H.
    destruct H as (_ & _ & _ & _ & _ & _ & _ & _ & Ha & Hb & Hc).
    repeat split; assumption.
Qed.

Lemma bottom_deposition_witness :
  let st := dummy_run example_config 3600 [1; 1; 0; 2]%nat
              [-100; -50; -100; -100] [5; 5; 5; 5] [60; 60; 60; 60]
              [100; 100; 100; 100] [1e-3; 1e-3; 1e-3; 1e-3] in
  let after := elements (final (bottom_interaction
                                  [-100; -100; -100; -100] st)) in
  z after = z (elements st) /\
  diameter after = diameter (elements st) /\
  length (specie after) = 4%nat /\
  forall i, (i < 4)%nat ->
    let s_i := nth i (specie (elements st)) 0%nat in
    let deep := nth i (z (elements st)) 0
                <= nth i [-100; -100; -100; -100] 0 in
    (s_i = 1%nat -> deep -> nth i (specie after) 0%nat = 2%nat) /\
    (~ deep -> nth i (specie after) 0%nat = s_i) /\
    (s_i <> 1%nat ->
     (slowly_fraction (config st) = true -> num_psrev st <> Some s_i) ->
     (irreversible_fraction (config st) = true ->
      num_pirrev st <> Some s_i) ->
     nth i (specie after) 0%nat = s_i).
Proof.
  intros st.
  apply (bottom_deposition [-100; -100; -100; -100] st 1 2).
  - reflexivity.
  - reflexivity.
  - simpl. discriminate.
  - simpl. discriminate.
  - reflexivity.
  - reflexivity.
Defined.

(** ** Desorption from the sediment *)

Section Desorption.

Import Np.

Variable rnd : Random.
Variables sp_in sp_out : list nat.
Variable st : Sim.
Variables lmm srev : nat.

Hypothesis Hlmm : num_lmm st = Some lmm.
Hypothesis Hsrev : num_srev st = Some srev.
Hypothesis Hstd : desorption_depth_uncert (config st) <= 0.

Let mask : list bool := moved srev lmm sp_in sp_out.
Let depth : list R := sea_floor_depth_below_sea_level (environment st).

(** Without uncertainty the handler returns after one assignment to
    [z]. *)
Lemma desorption_from_sediments_run :
  desorption_from_sediments rnd sp_in sp_out st =
  (Ret tt,
   set_elements
     (set_z (put mask
               (map (fun d => d + desorption_depth (config st))
                  (select mask depth))
               (z (elements st)))
        (elements st)) st).
Proof.
  unfold desorption_from_sediments.
  rewrite !run_get_config, run_gets.
  rewrite (run_attr _ _ _ lmm) by exact Hlmm.
  rewrite (run_attr _ _ _ srev) by exact Hsrev.
  unfold z_put at 1. rewrite run_modify_elements.
  unfold Rgtb, Rltb.
  destruct (Rlt_dec 0 (desorption_depth_uncert (config st))); [lra|].
  reflexivity.
Qed.

(** The vertical position the handler leaves: the seafloor depth plus the
    desorption depth for a particle that went from sediment-reversible to
    LMM, the old position otherwise. *)
Lemma desorption_from_sediments_z (i : nat) :
  length sp_in = length (z (elements st)) ->
  length sp_out = length (z (elements st)) ->
  length depth = length (z (elements st)) ->
  (i < length (z (elements st)))%nat ->
  nth i (z (elements (final (desorption_from_sediments rnd sp_in sp_out st))))
      0 =
  if ((nth i sp_out 0 =? lmm)%nat && (nth i sp_in 0 =? srev)%nat)%bool
  then nth i depth 0 + desorption_depth (config st)
  else nth i (z (elements st)) 0.
Proof.
  intros Hin Hout Hd Hi. rewrite desorption_from_sediments_run.
  unfold final. cbn [snd]. st_simpl.
  assert (Hm : nth i mask false =
               ((nth i sp_out 0 =? lmm)%nat && (nth i sp_in 0 =? srev)%nat)%bool).
  { unfold mask, moved.
    rewrite (nth_map2 andb _ _ i false false) by (rewrite length_map; lia).
    rewrite (nth_map_in _ sp_out i 0%nat), (nth_map_in _ sp_in i 0%nat) by lia.
    reflexivity. }
  rewrite nth_put by exact Hi. rewrite Hm.
  destruct ((nth i sp_out 0 =? lmm)%nat && (nth i sp_in 0 =? srev)%nat)%bool;
    [|reflexivity].
  assert (Hlm : length mask = length depth).
  { unfold mask, moved. rewrite length_map2, !length_map. lia. }
  pose proof (rank_lt_count mask i Hm) as Hrank.
  rewrite (nth_indep _ _ 0)
    by (rewrite length_map, length_select by exact Hlm; exact Hrank).
  rewrite (nth_map_in _ _ _ 0)
    by (rewrite length_select by exact Hlm; exact Hrank).
  rewrite nth_select_rank by (try exact Hm; lia). reflexivity.
Qed.

End Desorption.

(** C7: the code at a particle that leaves the sediment.  With a seafloor
    100 m deep ([sea_floor_depth_below_sea_level = 100], the bed being at
    [z = -100], where [sorption_to_sediments] puts a particle), a desorption
    depth of 10 m and no uncertainty, [desorption_from_sediments] returns
    with [z = 100 + 10]: the depth is taken without its sign, and the
    particle ends above the sea surface, not at [-100 + 10]. *)
Theorem desorption_above_surface :
  let st := dummy_run zero_uncert_config 3600 [0]%nat [-100] [5] [60] [100]
              [1e-3] in
  let rnd := constant_draws 0.5 0.5 in
  let after := desorption_from_sediments rnd [2]%nat [0]%nat st in
  ended after = Ret tt /\
  z (elements (final after)) = [100 + 10] /\
  ~ (nth 0 (z (elements (final after))) 0 <= 0) /\
  z (elements (final (sorption_to_sediments [0]%nat [2]%nat st)))
    = [-1 * 100].
Proof.
  intros st rnd after.
  assert (Hrun : after =
                 (Ret tt,
                  set_elements (set_z [100 + 10] (elements st)) st)).
  { unfold after.
    rewrite (desorption_from_sediments_run rnd [2]%nat [0]%nat st 0 2
               eq_refl eq_refl) by (simpl; lra).
    reflexivity. }
  rewrite Hrun. unfold ended, final. cbn [fst snd]. st_simpl.
  split; [reflexivity|]. split; [reflexivity|]. split.
  - cbn [nth]. lra.
  - unfold sorption_to_sediments.
    rewrite run_gets, (run_attr _ _ _ 2%nat), (run_attr _ _ _ 0%nat)
      by reflexivity.
    reflexivity.
Qed.

(** ** The [update] step *)

Lemma prepare_run_irreversible :
  prepare_run (fresh_sim irreversible_config 3600) =
  (Ret tt, irreversible_run [] [] [] [] [] []).
Proof. vm_compute. reflexivity. Qed.

Lemma prepare_run_example :
  prepare_run (fresh_sim example_config 3600) =
  (Ret tt, dummy_run example_config 3600 [] [] [] [] [] []).
Proof. vm_compute. reflexivity. Qed.

Section IdleStep.

Import Np.

Lemma count_true_all_false (mask : list bool) :
  (forall i, (i < length mask)%nat -> nth i mask false = false) ->
  count_true mask = 0%nat.
Proof.
  induction mask as [|b mask IH]; intros H; simpl; auto.
  rewrite IH.
  - specialize (H 0%nat). simpl in H. rewrite H by lia. reflexivity.
  - intros i Hi. apply (H (S i)). simpl. lia.
Qed.

(** When no draw is below its total probability the speciation step
    returns at once and changes nothing. *)
Lemma update_speciation_idle (rnd : Random) (st : Sim) (r : ref) :
  transfer_rates1D (elements st) = Some r ->
  length (nth r (arrays2 st) []) = length (specie (elements st)) ->
  (forall i, (i < length (specie (elements st)))%nat ->
     nth i (map sum (transformation_probability (time_step_seconds st)
                       (nth r (arrays2 st) []))) 0 <= ran1 rnd i) ->
  update_speciation rnd st = (Ret tt, st).
Proof.
  intros Hattr Hshape Hidle.
  unfold update_speciation.
  do 3 run_step. rewrite (run_attr _ _ _ r) by exact Hattr. run_step.
  rewrite count_true_all_false; [reflexivity|].
  intros i Hi. rewrite length_fill, repeat_length in Hi.
  rewrite (nth_phaseshift rnd st r Hshape i Hi).
  apply Rltb_false, Hidle, Hi.
Qed.

Lemma update_terminal_velocity_run (host : Host) (s : Sim) :
  exists W,
    update_terminal_velocity host s =
    (Ret tt, set_elements (set_terminal_velocity W (elements s)) s).
Proof.
  eexists. unfold update_terminal_velocity.
  rewrite run_get_elements, run_gets. cbv zeta. rewrite run_get_elements.
  cbv zeta. unfold modify_elements, modify. reflexivity.
Qed.

End IdleStep.

(** Runs [update] on a concrete object holding one sediment particle that
    does not transform: the projection, the idle speciation step, then one
    statement at a time. *)
Ltac run_statements :=
  repeat (first
            [ rewrite run_bind_assoc
            | rewrite run_gets
            | rewrite run_get_config
            | rewrite run_get_elements
            | rewrite run_load1
            | rewrite run_modify_elements
            | rewrite run_modify
            | rewrite run_ret
            | rewrite run_new1
            | erewrite run_attr by reflexivity
            | rewrite run_attr_none by reflexivity ];
          cbv beta zeta; st_simpl;
          cbn [slowly_fraction irreversible_fraction
               processes_verticaladvection set_irreversible_fraction
               irreversible_config example_config]).

Section SedimentStep.

Import Np.

Variable host : Host.
Variable rnd : Random.
Variable st : Sim.
Variable m : list (list R).
Variables lmm prev srev : nat.

Hypothesis Hready : projection_ready st m lmm prev srev.
Hypothesis Hone : length (specie (elements st)) = 1%nat.
Hypothesis Hsed : nth 0 (specie (elements st)) 0%nat <> lmm.
Hypothesis Hidle :
  sum (map (fun x => 1 - exp (- x * IZR (time_step_seconds st)))
         (nth (nth 0 (specie (elements st)) 0%nat) m []))
  <= ran1 rnd 0%nat.

(** The first two phases of [update] leave such an object as the
    projection left it. *)
Lemma update_after_speciation :
  exists rows W,
    let s1 :=
      set_elements
        (set_terminal_velocity W
           (set_transfer_rates1D (Some (length (arrays2 st))) (elements st)))
        (set_arrays2 (arrays2 st ++ [rows]) st) in
    update host rnd st =
    (z_before <- ret (z (elements st)) ;;
     vertical_mixing host ;;
     lon_ <- get_elements lon ;;
     lat_ <- get_elements lat ;;
     advect_ocean_current host ;;
     srev <- attr num_srev ;;
     reset_position lon lon_ srev ;;
     srev <- attr num_srev ;;
     reset_position lat lat_ srev ;;
     slowly <- get_config slowly_fraction ;;
     (if slowly then
        ssrev <- attr num_ssrev ;;
        reset_position lon lon_ ssrev ;;
        ssrev <- attr num_ssrev ;;
        reset_position lat lat_ ssrev
      else ret tt) ;;
     irreversible <- get_config irreversible_fraction ;;
     (if irreversible then
        sirrev <- attr num_sirrev ;;
        reset_position lon lon_ sirrev ;;
        sirrev <- attr num_sirrev ;;
        reset_position lat lat_ sirrev
      else ret tt) ;;
     vadv <- get_config processes_verticaladvection ;;
     (if vadv then vertical_advection host else ret tt) ;;
     srev <- attr num_srev ;;
     reset_z z_before srev ;;
     slowly <- get_config slowly_fraction ;;
     (if slowly then ssrev <- attr num_ssrev ;; reset_z z_before ssrev
      else ret tt) ;;
     irreversible <- get_config irreversible_fraction ;;
     if irreversible then sirrev <- attr num_sirrev ;; reset_z z_before sirrev
     else ret tt) s1.
Proof.
  pose proof (update_transfer_rates_run st m lmm prev srev Hready) as H1.
  pose proof (projected_rows_copy st m lmm prev srev Hready 0%nat) as Hrow.
  pose proof (length_projected_rows st m lmm prev srev) as Hlen.
  cbv zeta in H1, Hrow, Hlen.
  set (rows := projected_rows _ _ _ _ _ _ _ _ _) in *.
  exists rows.
  unfold update. rewrite (bind_ret_run _ _ _ _ _ H1). clear H1.
  set (s1 := set_arrays2 _ _).
  assert (Hr : nth (length (arrays2 st)) (arrays2 s1) [] = rows)
    by (unfold s1; st_simpl; apply nth_app_new).
  assert (H2 : update_speciation rnd s1 = (Ret tt, s1)).
  { apply (update_speciation_idle rnd s1 (length (arrays2 st))).
    - reflexivity.
    - rewrite Hr, Hlen. reflexivity.
    - intros i Hi. change (specie (elements s1)) with (specie (elements st))
        in Hi.
      assert (i = 0%nat) by lia. subst i.
      rewrite Hr, nth_psum by lia.
      rewrite Hrow by (auto; lia). exact Hidle. }
  rewrite (bind_ret_run _ _ _ _ _ H2). clear H2.
  rewrite run_get_elements.
  destruct (update_terminal_velocity_run host s1) as [W H3].
  exists W.
  rewrite (bind_ret_run _ _ _ _ _ H3). reflexivity.
Qed.

End SedimentStep.

Section IrreversibleStep.

Import Np.

Let st : Sim := irreversible_run [3]%nat [-100] [5] [60] [100] [1e-3].
Let rnd : Random := constant_draws 0.5 0.5.

Lemma irreversible_run_ready :
  projection_ready st irreversible_matrix 0 1 3.
Proof.
  unfold projection_ready, st, irreversible_run, irreversible_matrix.
  st_simpl.
  repeat split; try reflexivity; try lia.
  - exists 0%nat. repeat split; cbn; lia.
  - repeat constructor; cbn; lia.
  - repeat constructor; cbn; lia.
Qed.

(** The total probability of leaving the sediment within an hour, at the
    rate of the dummy setup, is below one half. *)
Lemma psum_sediment_row :
  sum (map (fun x => 1 - exp (- x * IZR 3600)) [5e-6; 0; 0; 0; 0]) <= 0.5.
Proof.
  cbn [map sum]. rewrite !prob_zero.
  pose proof (exp_ineq1_le (- (5e-6) * 3600)). lra.
Qed.

Lemma update_irreversible_run :
  exists s',
    update moving_host rnd st = (Raise "AttributeError", s') /\
    specie (elements s') = [3]%nat /\
    z (elements s') = [-100 + 1].
Proof.
  destruct (update_after_speciation moving_host rnd st irreversible_matrix
              0 1 3 irreversible_run_ready eq_refl)
    as (rows & W & Hrun).
  { cbn. lia. }
  { apply psum_sediment_row. }
  cbv zeta in Hrun. rewrite Hrun. clear Hrun.
  cbn [vertical_mixing advect_ocean_current vertical_advection moving_host].
  unfold reset_position, reset_z, z_put, store1, st, irreversible_run.
  run_statements.
  eexists. split; [reflexivity|]. st_simpl. split; reflexivity.
Qed.

End IrreversibleStep.

(** C10: the code with the irreversible fraction enabled.  After
    [prepare_run] with the compartments LMM, Particle reversible, Particle
    irreversible, Sediment reversible and Sediment irreversible, a step with
    one sediment-reversible particle resting at [z = -100] raises
    [AttributeError] at [self.num_sirrev], an attribute that no method
    assigns: the positions of the sedimented particle are not restored, and
    its [z] is the one turbulent mixing left. *)
Theorem update_irreversible_raises :
  let st := irreversible_run [3]%nat [-100] [5] [60] [100] [1e-3] in
  let after := update moving_host (constant_draws 0.5 0.5) st in
  irreversible_fraction (config st) = true /\
  num_srev st = Some 3%nat /\
  specie (elements st) = [3]%nat /\
  z (elements st) = [-100] /\
  ended after = Raise "AttributeError" /\
  specie (elements (final after)) = [3]%nat /\
  z (elements (final after)) = [-100 + 1].
Proof.
  intros st after.
  destruct update_irreversible_run as (s' & Hrun & Hsp & Hz).
  fold st in Hrun. fold after in Hrun.
  rewrite Hrun. unfold ended, final. cbn [fst snd].
  repeat split; assumption.
Qed.

Section RegularStep.

Import Np.

Let st : Sim :=
  dummy_run example_config 3600 [2]%nat [-100] [5] [60] [100] [1e-3].
Let rnd : Random := constant_draws 0.5 0.5.

Lemma regular_run_ready : projection_ready st dummy_matrix 0 1 2.
Proof.
  unfold projection_ready, st, dummy_run, dummy_matrix. st_simpl.
  repeat split; try reflexivity; try lia.
  - exists 0%nat. repeat split; cbn; lia.
  - repeat constructor; cbn; lia.
  - repeat constructor; cbn; lia.
Qed.

Lemma psum_sediment_row3 :
  sum (map (fun x => 1 - exp (- x * IZR 3600)) [5e-6; 0; 0]) <= 0.5.
Proof.
  cbn [map sum]. rewrite !prob_zero.
  pose proof (exp_ineq1_le (- (5e-6) * 3600)). lra.
Qed.

(** Without the irreversible fraction, and with a host whose advection
    stores the new positions in new arrays, the step returns and the
    sediment-reversible particle is back at its longitude, latitude and
    depth. *)
Lemma update_restores_sediment :
  let after := update moving_host rnd st in
  ended after = Ret tt /\
  lon_of (final after) = [5] /\
  lat_of (final after) = [60] /\
  z (elements (final after)) = [-100].
Proof.
  destruct (update_after_speciation moving_host rnd st dummy_matrix
              0 1 2 regular_run_ready eq_refl)
    as (rows & W & Hrun).
  { cbn. lia. }
  { apply psum_sediment_row3. }
  cbv zeta in Hrun. cbv zeta. rewrite Hrun. clear Hrun.
  cbn [vertical_mixing advect_ocean_current vertical_advection moving_host].
  unfold reset_position, reset_z, z_put, store1, st, dummy_run.
  run_statements.
  unfold ended, final, lon_of, lat_of, ret. cbn [fst snd]. st_simpl.
  repeat split; reflexivity.
Qed.

(** With a host whose advection writes into the existing arrays, the names
    [lon] and [lat] kept by [update] refer to the moved positions: the
    particle keeps the advected longitude and latitude, and only its depth
    is restored. *)
Lemma update_inplace_advection :
  let after := update inplace_host rnd st in
  ended after = Ret tt /\
  lon_of (final after) = [5 + 0.1] /\
  lat_of (final after) = [60 + 0.1] /\
  z (elements (final after)) = [-100].
Proof.
  destruct (update_after_speciation inplace_host rnd st dummy_matrix
              0 1 2 regular_run_ready eq_refl)
    as (rows & W & Hrun).
  { cbn. lia. }
  { apply psum_sediment_row3. }
  cbv zeta in Hrun. cbv zeta. rewrite Hrun. clear Hrun.
  cbn [vertical_mixing advect_ocean_current vertical_advection inplace_host].
  unfold reset_position, reset_z, z_put, store1, st, dummy_run.
  run_statements.
  unfold ended, final, lon_of, lat_of, ret. cbn [fst snd]. st_simpl.
  repeat split; reflexivity.
Qed.

End RegularStep.

(** The 'Bokna_137Cs' setup builds its matrix for [bokna_config]. *)
Lemma prepare_run_bokna :
  ended (prepare_run (fresh_sim bokna_config 3600)) = Ret tt /\
  config_in_range bokna_config.
Proof.
  split.
  - vm_compute.
    match goal with
    | |- context [Req_dec_T ?x ?y] => destruct (Req_dec_T x y) as [H|H]
    end.
    + exfalso. lra.
    + reflexivity.
  - unfold config_in_range, bokna_config. simpl. lra.
Qed.

(** ** The compartment indices *)

Section Indices.

Lemma index_of_lt (name : string) (l : list string) (i : nat) :
  index_of name l = Some i -> (i < length l)%nat.
Proof.
  revert i. induction l as [|x l IH]; intros i; simpl; [discriminate|].
  destruct (String.eqb x name).
  - intros [= <-]. lia.
  - destruct (index_of name l) as [j|]; simpl; [|discriminate].
    intros [= <-]. specialize (IH j eq_refl). lia.
Qed.

Lemma index_of_nth (name : string) (l : list string) (i : nat) :
  index_of name l = Some i -> nth i l "" = name.
Proof.
  revert i. induction l as [|x l IH]; intros i; simpl; [discriminate|].
  destruct (String.eqb_spec x name) as [->|].
  - intros [= <-]. reflexivity.
  - destruct (index_of name l) as [j|]; simpl; [|discriminate].
    intros [= <-]. apply IH. reflexivity.
Qed.

(** Two different names have different positions. *)
Lemma index_of_distinct (a b : string) (l : list string) (i j : nat) :
  index_of a l = Some i -> index_of b l = Some j -> a <> b -> i <> j.
Proof.
  intros Ha Hb Hab ->. apply Hab.
  rewrite <- (index_of_nth a l j Ha). apply index_of_nth, Hb.
Qed.

Lemma index_of_app (name x : string) (l : list string) (i : nat) :
  index_of name l = Some i -> index_of name (l ++ [x]) = Some i.
Proof.
  revert i. induction l as [|y l IH]; intros i; simpl; [discriminate|].
  destruct (String.eqb y name); [auto|].
  destruct (index_of name l) as [j|]; simpl; [|discriminate].
  intros [= <-]. now rewrite (IH j eq_refl).
Qed.

(** In an initialised run the indices of particle-reversible and
    sediment-reversible differ, and no particulate index is the
    sediment-reversible one. *)
Lemma indices_consistent_distinct (s : Sim) (prev srev : nat) :
  indices_consistent s ->
  num_prev s = Some prev -> num_srev s = Some srev ->
  prev <> srev /\
  (prev < length (name_species s))%nat /\
  (srev < length (name_species s))%nat /\
  num_psrev s <> Some srev /\
  num_pirrev s <> Some srev.
Proof.
  intros (_ & _ & Hp & Hps & Hs & _ & Hpi & _) Hprev Hsrev.
  specialize (Hp prev Hprev). specialize (Hs srev Hsrev).
  repeat split.
  - apply (index_of_distinct _ _ _ _ _ Hp Hs). discriminate.
  - apply (index_of_lt _ _ _ Hp).
  - apply (index_of_lt _ _ _ Hs).
  - intros H. specialize (Hps srev H).
    apply (index_of_distinct _ _ _ _ _ Hps Hs); [discriminate | reflexivity].
  - rewrite Hpi. discriminate.
Qed.

Lemma keeps_bind_name2num {B : Type} (I : Sim -> Prop) (ns : list string)
    (name : string) (k : nat -> M B) :
  (forall s, I s -> name_species s = ns) ->
  (forall i, index_of name ns = Some i -> keeps I (k i)) ->
  keeps I (bind (specie_name2num name) k).
Proof.
  intros Hns Hk s Hs. unfold specie_name2num.
  rewrite run_bind_assoc, run_gets, (Hns s Hs).
  destruct (index_of name ns) as [i|] eqn:Hi.
  - rewrite run_ret. apply (Hk i eq_refl), Hs.
  - rewrite run_raise. exact Hs.
Qed.

Variable ns : list string.

Let I : Sim -> Prop := fun s => name_species s = ns /\ indices_consistent s.

Lemma I_names (s : Sim) : I s -> name_species s = ns.
Proof. intros [H _]. exact H. Qed.

Lemma keeps_setitem_indices (i j : nat) (v : R) :
  keeps I (setitem_transfer_rates i j v).
Proof.
  unfold setitem_transfer_rates. keeps_auto. intros s Hs. exact Hs.
Qed.

(** Assigning to an index the position of its name. *)
Lemma keeps_assign (f : Sim -> Sim) (name : string) (i : nat) :
  index_of name ns = Some i ->
  (f = set_num_lmm (Some i) /\ name = "LMM") \/
  (f = set_num_col (Some i) /\ name = "Colloid") \/
  (f = set_num_prev (Some i) /\ name = "Particle reversible") \/
  (f = set_num_psrev (Some i) /\ name = "Particle slowly reversible") \/
  (f = set_num_srev (Some i) /\ name = "Sediment reversible") \/
  (f = set_num_ssrev (Some i) /\ name = "Sediment slowly reversible") ->
  keeps I (modify f).
Proof.
  intros Hi Hf. apply keeps_modify. intros s [Hn Hc].
  destruct Hc as (H1 & H2 & H3 & H4 & H5 & H6 & H7 & H8).
  rewrite Hn in *.
  destruct Hf as [[-> ->]|[[-> ->]|[[-> ->]|[[-> ->]|[[-> ->]|[-> ->]]]]]];
    (split; [exact Hn|]); unfold indices_consistent; st_simpl; rewrite Hn;
    repeat split; try assumption; intros j [= <-]; exact Hi.
Qed.

Ltac assign_step :=
  lazymatch goal with
  | |- keeps _ (bind (specie_name2num _) _) =>
      apply (keeps_bind_name2num I ns); [exact I_names | intros ? ?]
  | |- keeps _ (bind (py_div _ _) _) =>
      apply keeps_bind; [unfold py_div; destruct (Req_dec_T _ _) |intros ?]
  | |- keeps _ (bind _ _) => apply keeps_bind; [|intros ?]
  | |- keeps _ (setitem_transfer_rates _ _ _) => apply keeps_setitem_indices
  | |- keeps _ (modify _) =>
      eapply keeps_assign; [eassumption | tauto]
  | |- keeps _ (attr _) => apply keeps_attr
  | |- keeps _ (get_config _) => apply keeps_get_config
  | |- keeps _ (if _ then _ else _) => apply keeps_if
  | |- keeps _ (ret _) => apply keeps_ret
  | |- keeps _ (raise _) => apply keeps_raise
  | |- keeps _ (let _ := _ in _) => cbv zeta
  end.

Lemma keeps_init_transfer_rates_names : keeps I init_transfer_rates.
Proof.
  unfold init_transfer_rates.
  apply keeps_bind; [apply keeps_get_config|intros setup].
  apply keeps_bind; [apply keeps_gets|intros n].
  apply keeps_bind; [intros s Hs; exact Hs|intros r].
  apply keeps_bind; [apply keeps_modify; intros s Hs; exact Hs|intros _].
  apply keeps_bind; [|intros _].
  - repeat assign_step.
  - unfold store2. keeps_auto. apply keeps_modify. intros s Hs. exact Hs.
Qed.

End Indices.

Lemma keeps_init_transfer_rates_indices :
  keeps indices_consistent init_transfer_rates.
Proof.
  intros s Hs.
  apply (keeps_init_transfer_rates_names (name_species s) s).
  split; [reflexivity | exact Hs].
Qed.

Lemma keeps_append_species_indices (flag : Config -> bool) (name : string) :
  keeps indices_consistent (append_species flag name).
Proof.
  unfold append_species. keeps_auto. apply keeps_modify.
  intros s (H1 & H2 & H3 & H4 & H5 & H6 & H7 & H8).
  unfold indices_consistent. st_simpl.
  repeat split; try assumption; intros i Hi; apply index_of_app; auto.
Qed.

(** After [prepare_run] on a new object, however it ends, the assigned
    indices are the positions of their names, and [num_pirrev] and
    [num_sirrev] are not assigned. *)
Lemma prepare_run_indices (s : Sim) :
  indices_unassigned s -> indices_consistent (final (prepare_run s)).
Proof.
  intros (H1 & H2 & H3 & H4 & H5 & H6 & H7 & H8).
  unfold prepare_run. rewrite run_modify.
  match goal with
  | |- indices_consistent (final (?rest ?s0)) =>
      assert (H0 : indices_consistent s0);
      [|revert H0; generalize s0; change (keeps indices_consistent rest)]
  end.
  { unfold indices_consistent. st_simpl.
    rewrite H1, H2, H3, H4, H5, H6.
    repeat split; try assumption; discriminate. }
  unfold set_config.
  keeps_auto;
    try apply keeps_append_species_indices;
    try apply keeps_init_transfer_rates_indices;
    apply keeps_modify; intros s0 Hs0; exact Hs0.
Qed.

(** ** A step with the irreversible fraction *)

Section NeverReturns.

Context {A B : Type}.

Lemma fails_bind (I : Sim -> Prop) (m : M A) (k : A -> M B) :
  keeps I m -> (forall a, fails I (k a)) -> fails I (bind m k).
Proof.
  intros Hm Hk s Hs b. unfold bind. specialize (Hm s Hs).
  destruct (m s) as [[a|e] s']; unfold final in Hm; cbn [snd] in Hm.
  - apply (Hk a s' Hm).
  - unfold ended. cbn [fst]. discriminate.
Qed.

End NeverReturns.

Section IrreversibleFraction.

Let I : Sim -> Prop := irreversible_unassigned.

(** A statement that writes only arrays, particles or indices other than
    [num_sirrev] keeps [I]. *)
Ltac unassigned_leaf :=
  let s := fresh "s" in
  let Hs := fresh "Hs" in
  intros s Hs; exact Hs.

Lemma keeps_unassigned_core (rnd : Random) (host : Host) :
  keeps I update_transfer_rates /\
  keeps I (update_speciation rnd) /\
  keeps I (update_terminal_velocity host) /\
  (forall field saved num, keeps I (reset_position field saved num)) /\
  (forall z_before num, keeps I (reset_z z_before num)) /\
  (forall Zmin, keeps I (bottom_interaction Zmin)).
Proof.
  assert (Hz : ignores_z I) by (intros s v Hs; exact Hs).
  assert (Hd : ignores_diameter I) by (intros s v Hs; exact Hs).
  assert (Hsp : ignores_specie I) by (intros s v Hs; exact Hs).
  assert (Ht : ignores_terminal_velocity I) by (intros s v Hs; exact Hs).
  split; [|split; [|split; [|split; [|split]]]].
  - unfold update_transfer_rates, setcol_transfer_rates1D,
      getcol_transfer_rates1D, store2.
    keeps_auto; unassigned_leaf.
  - apply keeps_update_speciation; assumption.
  - apply keeps_update_terminal_velocity; assumption.
  - intros field saved num.
    unfold reset_position, store1. keeps_auto. unassigned_leaf.
  - intros z_before num. apply keeps_reset_z; assumption.
  - intros Zmin. apply keeps_bottom_interaction; assumption.
Qed.

Variable host : Host.
Variable rnd : Random.

Hypothesis host_mixing : keeps I (vertical_mixing host).
Hypothesis host_advect : keeps I (advect_ocean_current host).

(** With the irreversible fraction enabled and [num_sirrev] unassigned,
    [update] never returns: whatever the particles and the draws, it raises
    before or at its first use of [self.num_sirrev]. *)
Lemma update_never_returns : fails I (update host rnd).
Proof.
  destruct (keeps_unassigned_core rnd host)
    as (H1 & H2 & H3 & H4 & H5 & H6).
  unfold update.
  repeat lazymatch goal with
         | |- fails _ (bind (get_config irreversible_fraction) _) => fail
         | |- fails _ (bind _ _) =>
             apply fails_bind; [keeps_auto; auto | intros ?]
         end.
  intros s [Hirr Hnone] res.
  rewrite run_get_config, Hirr, run_bind_assoc.
  rewrite run_attr_none by exact Hnone.
  unfold ended. cbn [fst]. discriminate.
Qed.

End IrreversibleFraction.

(** The matrix that [prepare_run] builds for [fast_bokna_config], a
    configuration within the bounds of the configspec: the row of LMM holds
    the rate 1 towards particle-reversible and towards
    sediment-reversible. *)
Lemma fast_bokna_rates :
  config_in_range fast_bokna_config /\
  ended (prepare_run (fresh_sim fast_bokna_config 1)) = Ret tt /\
  matrix_of (final (prepare_run (fresh_sim fast_bokna_config 1))) =
  Some fast_bokna_matrix.
Proof.
  split.
  { unfold config_in_range, fast_bokna_config. simpl. lra. }
  assert (Hrun : exists s,
             prepare_run (fresh_sim fast_bokna_config 1) = (Ret tt, s) /\
             matrix_of s = Some fast_bokna_matrix).
  { vm_compute.
    match goal with
    | |- context [Req_dec_T ?x ?y] => destruct (Req_dec_T x y) as [H|H]
    end.
    - exfalso. lra.
    - eexists. split; [reflexivity|].
      cbv beta iota fix. apply f_equal.
      repeat (first [reflexivity | lra | apply f_equal2]). }
  destruct Hrun as (s & Hs & Hm). rewrite Hs. split; [reflexivity|exact Hm].
Qed.
